(** * ffmpegshuiyin: the watermark job engine

    A shallow embedding of [backend/app]: the command builder
    ([watermark.py]), the job record ([models.py]), the settings and their
    validators ([config.py], [schemas.py]) and the queue with its per-job
    execution ([ffmpeg_queue.py]), followed by the properties proved of
    them.

    Conventions of the embedding.
    - A Python [str] is a [string] (its UTF-8 bytes); every character the
      code inspects is ASCII.
    - A [pathlib.Path] is the string [str(path)] gives.
    - A Python [int] is a [Z].
    - A Python [float] is the rational number it denotes ([Q]); [opacity]
      and [progress] are the two floats of the program.
    - An exception is a value of [exn]; a function that may raise returns a
      [result]. *)

From Stdlib Require Import ZArith QArith Qabs Ascii String List DecimalString Lia.
From stdpp Require Import gmap strings list fin_maps.

Local Open Scope string_scope.
Local Open Scope list_scope.

(* stdpp keeps [simpl] from unfolding string concatenation; the proofs below
   compute with it. *)
#[local] Arguments String.append !_ _ : simpl nomatch.

(** ** Python built-ins used by the program *)

Module py.

(** Exceptions the program raises or receives, with the text [str(exc)]
    gives. *)
Inductive exn : Type :=
| ValueError (msg : string)
| KeyError (key : string)
| RuntimeError (msg : string)
| OSError (msg : string)
| UnicodeDecodeError (msg : string)
| ValidationError (errors : list string).

Inductive result (A : Type) : Type :=
| Ok (a : A)
| Raise (e : exn).
Arguments Ok {A} a.
Arguments Raise {A} e.

(** [bool(s)] of a string. *)
Definition truthy (s : string) : bool :=
  match s with EmptyString => false | String _ _ => true end.

(** [str(n)] of an integer. *)
Definition str_int (n : Z) : string := NilZero.string_of_int (Z.to_int n).

(** [s.replace(old, new)] for a one-character [old]. *)
Fixpoint replace (old : ascii) (new : string) (s : string) : string :=
  match s with
  | EmptyString => EmptyString
  | String c rest =>
      (if Ascii.eqb c old then new else String c EmptyString)
        +:+ replace old new rest
  end.

(** [sep.join(parts)]. *)
Definition join (sep : string) (parts : list string) : string :=
  String.concat sep parts.

(** [template.format] with keyword arguments, for templates whose replacement fields are
    plain names: text outside braces is copied, [{name}] is replaced by
    the keyword argument of that name.  A name that is not supplied raises
    [KeyError]; a brace that is not part of such a field raises
    [ValueError].  [field] is the name being read, [None] outside a
    field. *)
Fixpoint format_from (kwargs : list (string * string)) (field : option string)
    (template : string) : result string :=
  match template with
  | EmptyString =>
      match field with
      | None => Ok EmptyString
      | Some _ => Raise (ValueError "expected '}' before end of string")
      end
  | String c rest =>
      match field with
      | None =>
          if Ascii.eqb c "{" then format_from kwargs (Some EmptyString) rest
          else if Ascii.eqb c "}" then
            Raise (ValueError "Single '}' encountered in format string")
          else
            match format_from kwargs None rest with
            | Ok out => Ok (String c out)
            | Raise e => Raise e
            end
      | Some name =>
          if Ascii.eqb c "}" then
            match List.find (fun kv => String.eqb (fst kv) name) kwargs with
            | Some kv =>
                match format_from kwargs None rest with
                | Ok out => Ok (snd kv +:+ out)
                | Raise e => Raise e
                end
            | None => Raise (KeyError name)
            end
          else if Ascii.eqb c "{" then
            Raise (ValueError "unexpected '{' in field name")
          else format_from kwargs (Some (name +:+ String c EmptyString)) rest
      end
  end.

Definition format (template : string) (kwargs : list (string * string))
    : result string :=
  format_from kwargs None template.

(** Rounding of a rational to the nearest integer, ties to the even one. *)
Definition round_half_even (q : Q) : Z :=
  let n := Qnum q in
  let d := Zpos (Qden q) in
  let fl := (n / d)%Z in
  let r2 := (2 * (n mod d))%Z in
  if (r2 <? d)%Z then fl
  else if (d <? r2)%Z then (fl + 1)%Z
  else if Z.even fl then fl else (fl + 1)%Z.

Definition two_digits (n : Z) : string :=
  (if (n <? 10)%Z then "0" else "") +:+ str_int n.

(** [f"{x:.2f}"]: the value rounded to two decimals, printed with both. *)
Definition format_2f (x : Q) : string :=
  let neg := negb (Qle_bool 0 x) in
  let c := round_half_even (Qabs x * 100) in
  (if neg then "-" else "")
    +:+ str_int (c / 100) +:+ "." +:+ two_digits (c mod 100).

(** The characters [shlex.quote] leaves alone: [[A-Za-z0-9_@%+=:,./-]]. *)
Definition shell_safe (c : ascii) : bool :=
  let n := nat_of_ascii c in
  ((48 <=? n)%nat && (n <=? 57)%nat) || ((65 <=? n)%nat && (n <=? 90)%nat)
  || ((97 <=? n)%nat && (n <=? 122)%nat)
  || existsb (Ascii.eqb c)
       ["_"; "@"; "%"; "+"; "="; ":"; ","; "."; "/"; "-"]%char.

Fixpoint all_chars (p : ascii -> bool) (s : string) : bool :=
  match s with
  | EmptyString => true
  | String c rest => p c && all_chars p rest
  end.

Definition dquote : string := String (ascii_of_nat 34) EmptyString.

(** [shlex.quote(s)]. *)
Definition shlex_quote (s : string) : string :=
  if negb (truthy s) then "''"
  else if all_chars shell_safe s then s
  else "'" +:+ replace "'" ("'" +:+ dquote +:+ "'" +:+ dquote +:+ "'") s +:+ "'".

(** [s.startswith(prefix)]. *)
Fixpoint startswith (prefix s : string) : bool :=
  match prefix with
  | EmptyString => true
  | String a prefix' =>
      match s with
      | EmptyString => false
      | String b s' => Ascii.eqb a b && startswith prefix' s'
      end
  end.

(** [c in s] for a character. *)
Fixpoint contains (c : ascii) (s : string) : bool :=
  match s with
  | EmptyString => false
  | String a rest => Ascii.eqb a c || contains c rest
  end.

(** [pathlib], on a POSIX system.  A path is kept as the string [str(path)]
    gives.  [split_slash] is [s.split("/")]. *)
Fixpoint split_slash (s : string) : list string :=
  match s with
  | EmptyString => [EmptyString]
  | String c rest =>
      if Ascii.eqb c "/" then EmptyString :: split_slash rest
      else
        match split_slash rest with
        | [] => [String c EmptyString]
        | part :: parts => String c part :: parts
        end
  end.

(** The components of a path: empty components and [.] are dropped, [..]
    is kept. *)
Definition parts (p : string) : list string :=
  List.filter (fun part => truthy part && negb (String.eqb part "."))
    (split_slash p).

(** The root of a path: [/], or [//] for exactly two leading slashes, or
    none. *)
Definition root (p : string) : string :=
  match p with
  | String "/" (String "/" (String "/" _)) => "/"
  | String "/" (String "/" _) => "//"
  | String "/" _ => "/"
  | _ => ""
  end.

(** [str] of the path with this root and these components. *)
Definition make_path (root : string) (parts : list string) : string :=
  let body := join "/" parts in
  if truthy root then root +:+ body
  else if truthy body then body else ".".

(** [str(Path(p))]. *)
Definition Path (p : string) : string := make_path (root p) (parts p).

(** [path.name]: the last component, empty when there is none. *)
Definition name (p : string) : string := List.last (parts p) "".

(** [s.rfind(c)], [None] for -1. *)
Fixpoint rfind (c : ascii) (s : string) : option nat :=
  match s with
  | EmptyString => None
  | String a rest =>
      match rfind c rest with
      | Some i => Some (S i)
      | None => if Ascii.eqb a c then Some 0%nat else None
      end
  end.

(** [path.stem]: the name without its last suffix. *)
Definition stem (p : string) : string :=
  let n := name p in
  match rfind "." n with
  | Some i =>
      if (0 <? i)%nat && (i <? String.length n - 1)%nat
      then String.substring 0 i n else n
  | None => n
  end.

(** [directory / file_name], [file_name] a string: a rooted [file_name]
    replaces the directory, otherwise its components follow those of the
    directory. *)
Definition joinpath (directory file_name : string) : string :=
  if truthy (root file_name) then Path file_name
  else make_path (root directory) (parts directory ++ parts file_name).

(** ['%02x' % n] for [n] below 256. *)
Definition two_hex (n : N) : string :=
  let digit d := if (d <? 10)%N then ascii_of_N (48 + d) else ascii_of_N (87 + d) in
  String (digit (n / 16)%N) (String (digit (n mod 16)%N) EmptyString).

(** [repr(s)] of a string: between single quotes, or between double quotes
    when it holds a single quote and no double quote; the quote used and
    the backslash get a backslash, tab, newline and carriage return their
    letter, the other control characters their code.  Characters outside
    ASCII are taken to be printable. *)
Definition repr_char (quote c : ascii) : string :=
  let n := N_of_ascii c in
  if Ascii.eqb c quote || Ascii.eqb c "\" then String "\" (String c EmptyString)
  else if (n =? 9)%N then "\t"
  else if (n =? 10)%N then "\n"
  else if (n =? 13)%N then "\r"
  else if (n <? 32)%N || (n =? 127)%N then "\x" +:+ two_hex n
  else String c EmptyString.

Fixpoint repr_body (quote : ascii) (s : string) : string :=
  match s with
  | EmptyString => EmptyString
  | String c rest => repr_char quote c +:+ repr_body quote rest
  end.

Definition repr_str (s : string) : string :=
  let quote :=
    if contains "'" s && negb (contains (ascii_of_nat 34) s)
    then ascii_of_nat 34 else "'"%char in
  String quote EmptyString +:+ repr_body quote s +:+ String quote EmptyString.

(** [time]: a [struct_time], its fields as [time.localtime] fills them, and
    [time.strftime("%Y-%m-%d %H:%M:%S", t)]. *)
Record struct_time : Type := {
  tm_year : Z; tm_mon : Z; tm_mday : Z; tm_hour : Z; tm_min : Z; tm_sec : Z
}.

Definition strftime (t : struct_time) : string :=
  str_int (tm_year t) +:+ "-" +:+ two_digits (tm_mon t) +:+ "-"
    +:+ two_digits (tm_mday t) +:+ " " +:+ two_digits (tm_hour t) +:+ ":"
    +:+ two_digits (tm_min t) +:+ ":" +:+ two_digits (tm_sec t).

(** [uuid]: the 128-bit integer of a version 4 UUID made from 16 random
    bytes (the variant and version bits are forced), and its [hex]. *)
Definition uuid4 (random : N) : N :=
  let i := (random mod 2 ^ 128)%N in
  let i := N.ldiff i (N.shiftl 0xc000 48) in
  let i := N.lor i (N.shiftl 0x8000 48) in
  let i := N.ldiff i (N.shiftl 0xf000 64) in
  N.lor i (N.shiftl 4 76).

Definition hex_digit (d : N) : ascii :=
  if (d <? 10)%N then ascii_of_N (48 + d) else ascii_of_N (87 + d).

(** The [k] low hexadecimal digits of [n], most significant first. *)
Fixpoint hex_digits (k : nat) (n : N) : string :=
  match k with
  | O => EmptyString
  | S k' => hex_digits k' (n / 16)%N +:+ String (hex_digit (n mod 16)%N) EmptyString
  end.

(** [UUID.hex], that is ['%032x' % self.int], of an integer below 2^128. *)
Definition hex (n : N) : string := hex_digits 32 n.

End py.
Import py.

(** ** backend/app/models.py *)

Module models.

Inductive WatermarkType : Type := TEXT | IMAGE.

Inductive JobStatus : Type := QUEUED | RUNNING | COMPLETED | FAILED | CANCELLED.

Record WatermarkSettings : Type := {
  type : WatermarkType;
  text : option string;
  font_path : option string;
  font_size : Z;
  color : string;
  image_path : option string;
  opacity : Q;
  position : string;
  offset_x : Z;
  offset_y : Z
}.

Record Job : Type := {
  input_files : list string;
  watermark : WatermarkSettings;
  output_format : string;
  output_dir : string;
  target_device : string;
  id : string;
  status : JobStatus;
  created_at : Q;
  started_at : option Q;
  finished_at : option Q;
  progress : Q;
  log : list string;
  metadata : gmap string string
}.

Definition set_status (s : JobStatus) (j : Job) : Job :=
  {| input_files := input_files j; watermark := watermark j;
     output_format := output_format j; output_dir := output_dir j;
     target_device := target_device j; id := id j; status := s;
     created_at := created_at j; started_at := started_at j;
     finished_at := finished_at j; progress := progress j; log := log j;
     metadata := metadata j |}.

Definition set_started_at (t : Q) (j : Job) : Job :=
  {| input_files := input_files j; watermark := watermark j;
     output_format := output_format j; output_dir := output_dir j;
     target_device := target_device j; id := id j; status := status j;
     created_at := created_at j; started_at := Some t;
     finished_at := finished_at j; progress := progress j; log := log j;
     metadata := metadata j |}.

Definition set_finished_at (t : Q) (j : Job) : Job :=
  {| input_files := input_files j; watermark := watermark j;
     output_format := output_format j; output_dir := output_dir j;
     target_device := target_device j; id := id j; status := status j;
     created_at := created_at j; started_at := started_at j;
     finished_at := Some t; progress := progress j; log := log j;
     metadata := metadata j |}.

Definition set_progress (p : Q) (j : Job) : Job :=
  {| input_files := input_files j; watermark := watermark j;
     output_format := output_format j; output_dir := output_dir j;
     target_device := target_device j; id := id j; status := status j;
     created_at := created_at j; started_at := started_at j;
     finished_at := finished_at j; progress := p; log := log j;
     metadata := metadata j |}.

Definition set_metadata (m : gmap string string) (j : Job) : Job :=
  {| input_files := input_files j; watermark := watermark j;
     output_format := output_format j; output_dir := output_dir j;
     target_device := target_device j; id := id j; status := status j;
     created_at := created_at j; started_at := started_at j;
     finished_at := finished_at j; progress := progress j; log := log j;
     metadata := m |}.

(** [Job.append_log], the local time already formatted as [timestamp]. *)
Definition append_log (timestamp message : string) (j : Job) : Job :=
  let entry := "[" +:+ timestamp +:+ "] " +:+ message in
  {| input_files := input_files j; watermark := watermark j;
     output_format := output_format j; output_dir := output_dir j;
     target_device := target_device j; id := id j; status := status j;
     created_at := created_at j; started_at := started_at j;
     finished_at := finished_at j; progress := progress j;
     log := log j ++ [entry];
     metadata := metadata j |}.

End models.
Import models.

(** ** backend/app/watermark.py *)

Module watermark.

Definition POSITION_MAP : list (string * (string * string)) :=
  [ ("top-left", ("{x_offset}", "{y_offset}"));
    ("top-right", ("W-w-{x_offset}", "{y_offset}"));
    ("bottom-left", ("{x_offset}", "H-h-{y_offset}"));
    ("bottom-right", ("W-w-{x_offset}", "H-h-{y_offset}"));
    ("center", ("(W-w)/2", "(H-h)/2")) ].

(** [POSITION_MAP[key]]. *)
Definition POSITION_MAP_get (key : string) : result (string * string) :=
  match List.find (fun kv => String.eqb (fst kv) key) POSITION_MAP with
  | Some kv => Ok (snd kv)
  | None => Raise (KeyError key)
  end.

Definition escape_text (text : string) : string :=
  let escaped := replace ":" "\:" (replace "\" "\\" text) in
  replace "'" "\'" escaped.

(** Lines 31-33 of [build_filter_and_inputs]: the x and y expressions. *)
Definition resolve_position (w : WatermarkSettings) : result (string * string) :=
  match POSITION_MAP_get (position w) with
  | Raise e => Raise e
  | Ok (x_expr, y_expr) =>
      match format x_expr [("x_offset", str_int (offset_x w))] with
      | Raise e => Raise e
      | Ok x_expr =>
          match format y_expr [("y_offset", str_int (offset_y w))] with
          | Raise e => Raise e
          | Ok y_expr => Ok (x_expr, y_expr)
          end
      end
  end.

(** The [fontcolor] value of a text watermark (lines 36-39). *)
Definition text_color (w : WatermarkSettings) : string :=
  if negb (Qle_bool 1 (opacity w))
  then color w +:+ "@" +:+ format_2f (opacity w)
  else color w.

(** The [drawtext_args] dictionary, in insertion order (lines 40-48). *)
Definition drawtext_args (w : WatermarkSettings) (x_expr y_expr : string)
    : list (string * string) :=
  [ ("text", escape_text (default "" (text w)));
    ("fontcolor", text_color w);
    ("fontsize", str_int (font_size w));
    ("x", x_expr);
    ("y", y_expr) ]
  ++ match font_path w with
     | Some p => if truthy p then [("fontfile", p)] else []
     | None => []
     end.

Definition build_filter_and_inputs (job : Job)
    : result (list string * list string) :=
  let watermark := watermark job in
  match resolve_position watermark with
  | Raise e => Raise e
  | Ok (x_expr, y_expr) =>
      match type watermark with
      | TEXT =>
          let drawtext_expr :=
            join ":" (map (fun kv => fst kv +:+ "=" +:+ snd kv)
                          (drawtext_args watermark x_expr y_expr)) in
          Ok ([], ["drawtext=" +:+ drawtext_expr])
      | IMAGE =>
          match image_path watermark with
          | None => Raise (ValueError "Image watermark requires an image path")
          | Some image_path =>
              let overlay :=
                "[1]format=rgba,colorchannelmixer=aa="
                  +:+ format_2f (opacity watermark) +:+ "[wm];" in
              let overlay :=
                overlay +:+ "[0][wm]overlay=" +:+ x_expr +:+ ":" +:+ y_expr in
              Ok (["-i"; image_path], [overlay])
          end
      end
  end.

(** The video-codec clause (lines 69-74). *)
Definition codec_clause (job : Job) : list string :=
  if String.eqb (target_device job) "cpu" then
    ["-c:v"; "libx264"; "-preset"; default "medium" (metadata job !! "preset")]
  else if String.eqb (target_device job) "intel" then ["-c:v"; "h264_qsv"]
  else if String.eqb (target_device job) "nvidia" then ["-c:v"; "h264_nvenc"]
  else [].

Definition build_ffmpeg_command (job : Job) (input_file output_file : string)
    : result (list string) :=
  match build_filter_and_inputs job with
  | Raise e => Raise e
  | Ok (inputs, filters) =>
      let cmd :=
        [default "ffmpeg" (metadata job !! "ffmpeg_binary"); "-y"; "-i"; input_file] in
      let cmd := cmd ++ inputs in
      let cmd :=
        match filters with
        | [] => cmd
        | _ :: _ => cmd ++ ["-filter_complex"; join ";" filters]
        end in
      let cmd := cmd ++ codec_clause job in
      Ok (cmd ++ ["-c:a"; "copy"; output_file])
  end.

Definition command_as_string (cmd : list string) : string :=
  join " " (map shlex_quote cmd).

End watermark.
Import watermark.

(** ** backend/app/config.py *)

Module config.

Record Settings : Type := {
  storage_root : string;
  upload_dir : string;
  output_dir : string;
  temp_dir : string;
  default_output_format : string;
  max_parallel_jobs : Z;
  ffmpeg_binary : string;
  allow_gpu : bool
}.

Definition output_path (s : Settings) : string :=
  joinpath (storage_root s) (output_dir s).

Definition set_max_parallel_jobs (v : Z) (s : Settings) : Settings :=
  {| storage_root := storage_root s; upload_dir := upload_dir s;
     output_dir := output_dir s; temp_dir := temp_dir s;
     default_output_format := default_output_format s;
     max_parallel_jobs := v; ffmpeg_binary := ffmpeg_binary s;
     allow_gpu := allow_gpu s |}.

Definition set_default_output_format (v : string) (s : Settings) : Settings :=
  {| storage_root := storage_root s; upload_dir := upload_dir s;
     output_dir := output_dir s; temp_dir := temp_dir s;
     default_output_format := v;
     max_parallel_jobs := max_parallel_jobs s; ffmpeg_binary := ffmpeg_binary s;
     allow_gpu := allow_gpu s |}.

Definition set_ffmpeg_binary (v : string) (s : Settings) : Settings :=
  {| storage_root := storage_root s; upload_dir := upload_dir s;
     output_dir := output_dir s; temp_dir := temp_dir s;
     default_output_format := default_output_format s;
     max_parallel_jobs := max_parallel_jobs s; ffmpeg_binary := v;
     allow_gpu := allow_gpu s |}.

Definition set_allow_gpu (v : bool) (s : Settings) : Settings :=
  {| storage_root := storage_root s; upload_dir := upload_dir s;
     output_dir := output_dir s; temp_dir := temp_dir s;
     default_output_format := default_output_format s;
     max_parallel_jobs := max_parallel_jobs s; ffmpeg_binary := ffmpeg_binary s;
     allow_gpu := v |}.

End config.

(** ** backend/app/schemas.py *)

Module schemas.

Record WatermarkSettingsIn : Type := {
  type : WatermarkType;
  text : option string;
  font_path : option string;
  font_size : Z;
  color : string;
  image_path : option string;
  opacity : Q;
  position : string;
  offset_x : Z;
  offset_y : Z
}.

Record SettingsUpdate : Type := {
  max_parallel_jobs : option Z;
  allow_gpu : option bool;
  default_output_format : option string;
  ffmpeg_binary : option string
}.

Definition validate_parallel_jobs (value : option Z) : result (option Z) :=
  match value with
  | Some v =>
      if (v <? 1)%Z then Raise (ValueError "max_parallel_jobs must be >= 1")
      else Ok value
  | None => Ok value
  end.

Definition validate_output_format (value : option string)
    : result (option string) :=
  match value with
  | Some v =>
      if negb (truthy v)
      then Raise (ValueError "default_output_format cannot be empty")
      else Ok value
  | None => Ok value
  end.

Definition error_text {A} (r : result A) : list string :=
  match r with
  | Raise (ValueError msg) => [msg]
  | _ => []
  end.

(** Construction of a [SettingsUpdate] from the request's fields: every
    validator runs, and the model is built only when none raised. *)
Definition SettingsUpdate_validate (fields : SettingsUpdate)
    : result SettingsUpdate :=
  let jobs := validate_parallel_jobs (max_parallel_jobs fields) in
  let fmt := validate_output_format (default_output_format fields) in
  match error_text jobs ++ error_text fmt with
  | [] => Ok fields
  | errors => Raise (ValidationError errors)
  end.

End schemas.

(** ** backend/app/ffmpeg_queue.py *)

Module ffmpeg_queue.

(** *** The world outside the program

    What [subprocess.Popen] does with a command: it fails to start the
    process; or the process prints [lines] (each as [line.strip()] leaves
    it) and exits with [return_code]; or, the output being read as text,
    the bytes that follow [lines] do not decode and reading them raises. *)
Inductive Process : Type :=
| Spawned (lines : list string) (return_code : Z)
| SpawnError (msg : string)
| Garbled (lines : list string) (msg : string).

(** The clock is read through [time_at] ([time.time()]) and [localtime_at]
    ([time.localtime()]), both at the number of readings made so far.
    [mkdir] and [popen] answer for the input at the given position of the
    job: [mkdir], given the output path, makes its parent directory and
    returns the text of the [OSError], if any; [popen] is given the
    command.  [urandom] is the n-th draw of 16 random bytes, as an
    integer. *)
Record World : Type := {
  time_at : nat -> Q;
  localtime_at : nat -> struct_time;
  mkdir : nat -> string -> option string;
  popen : nat -> list string -> Process;
  urandom : nat -> N
}.

(** The timestamp [Job.append_log] writes at the n-th reading. *)
Definition strftime_at (w : World) (n : nat) : string := strftime (localtime_at w n).

(** The messages the queue logs, by the statement that logs them, and
    their texts; [Output] is a line of a process, logged as it is. *)
Inductive Message : Type :=
| Created
| Starting (total_files : nat)
| Processing (input_name output_name : string)
| Command (rendered : string)
| Output (line : string)
| Completed (input_name : string)
| Failed (reason : string)
| Finished.

Definition message_text (m : Message) : string :=
  match m with
  | Created => "Job created and queued"
  | Starting n => "Starting job with " +:+ str_int (Z.of_nat n) +:+ " file(s)"
  | Processing i o => "Processing " +:+ i +:+ " -> " +:+ o
  | Command c => "Command: " +:+ c
  | Output l => l
  | Completed i => "Completed " +:+ i
  | Failed r => "Failed: " +:+ r
  | Finished => "Job finished successfully"
  end.

(** *** The queue object and the process-wide settings *)

Record Thread : Type := { alive : bool }.

Record FFmpegQueue : Type := {
  _jobs : gmap string Job;
  _queue : list string;
  _workers : list Thread;
  _max_parallel_jobs : Z;
  _stop_event : bool
}.

(** The module-level [settings] and [ffmpeg_queue] objects, with the
    number of clock readings and random draws made so far. *)
Record App : Type := {
  settings : config.Settings;
  queue : FFmpegQueue;
  clock : nat;
  entropy : nat
}.

Definition dict_setdefault (key value : string) (d : gmap string string)
    : gmap string string :=
  match d !! key with
  | Some _ => d
  | None => <[key := value]> d
  end.

(** *** Job management *)

Definition create_job (w : World) (files : list string)
    (watermark : schemas.WatermarkSettingsIn) (output_format : option string)
    (target_device : string) (metadata : option (gmap string string))
    (app : App) : Job * App :=
  let settings := settings app in
  let self := queue app in
  let target_device :=
    if negb (existsb (String.eqb target_device) ["cpu"; "intel"; "nvidia"])
    then "cpu" else target_device in
  let target_device :=
    if negb (String.eqb target_device "cpu") && negb (config.allow_gpu settings)
    then "cpu" else target_device in
  let wm_settings :=
    {| models.type := schemas.type watermark;
       models.text := schemas.text watermark;
       models.font_path := schemas.font_path watermark;
       models.font_size := schemas.font_size watermark;
       models.color := schemas.color watermark;
       models.image_path :=
         match schemas.image_path watermark with
         | Some p => if truthy p then Some (Path p) else None
         | None => None
         end;
       models.opacity := schemas.opacity watermark;
       models.position := schemas.position watermark;
       models.offset_x := schemas.offset_x watermark;
       models.offset_y := schemas.offset_y watermark |} in
  let output_dir := config.output_path settings in
  let job :=
    {| input_files := files;
       models.watermark := wm_settings;
       models.output_format :=
         match output_format with
         | Some f => if truthy f then f else config.default_output_format settings
         | None => config.default_output_format settings
         end;
       models.output_dir := output_dir;
       models.target_device := target_device;
       id := hex (uuid4 (urandom w (entropy app)));
       status := QUEUED;
       created_at := time_at w (clock app);
       started_at := None;
       finished_at := None;
       progress := 0;
       log := [];
       models.metadata := ∅ |} in
  let job := set_metadata (default ∅ metadata ∪ models.metadata job) job in
  let job :=
    set_metadata
      (dict_setdefault "ffmpeg_binary" (config.ffmpeg_binary settings)
         (models.metadata job)) job in
  (* the registry and the caller share the job object: the entry logged
     after the insertion is in the registered job too *)
  let job :=
    models.append_log (strftime_at w (S (clock app))) (message_text Created) job in
  let self :=
    {| _jobs := <[id job := job]> (_jobs self);
       _queue := _queue self ++ [id job];
       _workers := _workers self;
       _max_parallel_jobs := _max_parallel_jobs self;
       _stop_event := _stop_event self |} in
  (job, {| settings := settings; queue := self;
           clock := S (S (clock app)); entropy := S (entropy app) |}).

Definition get_job (self : FFmpegQueue) (job_id : string) : option Job :=
  _jobs self !! job_id.

(** *** Settings management *)

Definition _resize_workers (self : FFmpegQueue) : FFmpegQueue :=
  let current := Z.of_nat (List.length (_workers self)) in
  if (current <? _max_parallel_jobs self)%Z then
    {| _jobs := _jobs self;
       _queue := _queue self;
       _workers :=
         _workers self
           ++ repeat {| alive := true |}
                (Z.to_nat (_max_parallel_jobs self - current));
       _max_parallel_jobs := _max_parallel_jobs self;
       _stop_event := _stop_event self |}
  else if (_max_parallel_jobs self <? current)%Z then
    {| _jobs := _jobs self;
       _queue :=
         _queue self
           ++ repeat "__stop__" (Z.to_nat (current - _max_parallel_jobs self));
       _workers := List.filter alive (_workers self);
       _max_parallel_jobs := _max_parallel_jobs self;
       _stop_event := _stop_event self |}
  else self.

Definition set_max (v : Z) (self : FFmpegQueue) : FFmpegQueue :=
  {| _jobs := _jobs self; _queue := _queue self; _workers := _workers self;
     _max_parallel_jobs := v; _stop_event := _stop_event self |}.

Definition set_jobs (jobs : gmap string Job) (self : FFmpegQueue) : FFmpegQueue :=
  {| _jobs := jobs; _queue := _queue self; _workers := _workers self;
     _max_parallel_jobs := _max_parallel_jobs self;
     _stop_event := _stop_event self |}.

Definition update_settings (payload : schemas.SettingsUpdate) (app : App) : App :=
  let self := queue app in
  let settings := settings app in
  let changed := false in
  let '(self, settings, changed) :=
    match schemas.max_parallel_jobs payload with
    | Some v =>
        if negb (v =? _max_parallel_jobs self)%Z then
          let self := _resize_workers (set_max v self) in
          (self, config.set_max_parallel_jobs (_max_parallel_jobs self) settings, true)
        else (self, settings, changed)
    | None => (self, settings, changed)
    end in
  let '(settings, changed) :=
    match schemas.default_output_format payload with
    | Some v => (config.set_default_output_format v settings, true)
    | None => (settings, changed)
    end in
  let '(settings, changed) :=
    match schemas.ffmpeg_binary payload with
    | Some v => (config.set_ffmpeg_binary v settings, true)
    | None => (settings, changed)
    end in
  let '(settings, changed) :=
    match schemas.allow_gpu payload with
    | Some v => (config.set_allow_gpu v settings, true)
    | None => (settings, changed)
    end in
  let self :=
    if changed then
      set_jobs
        ((fun job =>
            set_metadata
              (dict_setdefault "ffmpeg_binary" (config.ffmpeg_binary settings)
                 (metadata job)) job) <$> _jobs self) self
    else self in
  {| settings := settings; queue := self;
     clock := clock app; entropy := entropy app |}.

Definition shutdown (self : FFmpegQueue) : FFmpegQueue :=
  {| _jobs := _jobs self;
     _queue := _queue self ++ repeat "__stop__" (List.length (_workers self));
     _workers := _workers self;
     _max_parallel_jobs := _max_parallel_jobs self;
     _stop_event := true |}.

(** *** Job execution

    The state of one run: the job object, the number of clock readings
    made, and two records the code does not keep, every value assigned to
    [job.progress] and every command a process was started with, both in
    order. *)
Record RunState : Type := {
  job : Job;
  now : nat;
  progress_writes : list Q;
  launched : list (list string)
}.

Definition M (A : Type) : Type := RunState -> result A * RunState.

Definition ret {A} (a : A) : M A := fun s => (Ok a, s).

Definition raise {A} (e : exn) : M A := fun s => (Raise e, s).

Definition bind {A B} (m : M A) (k : A -> M B) : M B :=
  fun s =>
    match m s with
    | (Ok a, s') => k a s'
    | (Raise e, s') => (Raise e, s')
    end.

Notation "x <- m ;; k" := (bind m (fun x => k))
  (at level 100, m at next level, right associativity).
Notation "m ;;; k" := (bind m (fun _ => k))
  (at level 100, right associativity).

Definition lift {A} (r : result A) : M A := fun s => (r, s).

Definition read_job : M Job := fun s => (Ok (job s), s).

Definition update_job (f : Job -> Job) (s : RunState) : RunState :=
  {| job := f (job s); now := now s;
     progress_writes := progress_writes s; launched := launched s |}.

Definition tick (s : RunState) : RunState :=
  {| job := job s; now := S (now s);
     progress_writes := progress_writes s; launched := launched s |}.

(** [job.append_log(message)]: one reading of the clock. *)
Definition append_log (w : World) (m : Message) : M unit :=
  fun s =>
    (Ok tt,
     tick (update_job (models.append_log (strftime_at w (now s)) (message_text m)) s)).

Definition set_job_progress (p : Q) : M unit :=
  fun s =>
    (Ok tt, {| job := set_progress p (job s); now := now s;
               progress_writes := progress_writes s ++ [p];
               launched := launched s |}).

Definition record_launch (cmd : list string) : M unit :=
  fun s =>
    (Ok tt, {| job := job s; now := now s;
               progress_writes := progress_writes s;
               launched := launched s ++ [cmd] |}).

Fixpoint for_each {A} (l : list A) (body : A -> M unit) : M unit :=
  match l with
  | [] => ret tt
  | x :: rest => body x ;;; for_each rest body
  end.

Definition _execute_ffmpeg (w : World) (index : nat) (cmd : list string) : M unit :=
  match popen w index cmd with
  | SpawnError msg => raise (OSError msg)
  | Spawned lines return_code =>
      record_launch cmd ;;;
      for_each lines (fun line => append_log w (Output line)) ;;;
      if negb (return_code =? 0)%Z
      then raise (RuntimeError ("FFmpeg exited with code " +:+ str_int return_code))
      else ret tt
  | Garbled lines msg =>
      record_launch cmd ;;;
      for_each lines (fun line => append_log w (Output line)) ;;;
      raise (UnicodeDecodeError msg)
  end.

(** The body of the [try] of [_run_job], for the input at [index]. *)
Definition process_input (w : World) (index : nat) (input_file : string) : M unit :=
  job <- read_job ;;
  let output_filename :=
    stem input_file +:+ "_watermarked." +:+ output_format job in
  let output_path := joinpath (output_dir job) output_filename in
  match mkdir w index output_path with
  | Some msg => raise (OSError msg)
  | None => ret tt
  end ;;;
  cmd <- lift (build_ffmpeg_command job input_file output_path) ;;
  append_log w (Processing (name input_file) (name output_path)) ;;;
  append_log w (Command (command_as_string cmd)) ;;;
  _execute_ffmpeg w index cmd ;;;
  append_log w (Completed (name input_file)).

(** [str(exc)]. *)
Definition exn_str (e : exn) : string :=
  match e with
  | ValueError msg | RuntimeError msg | OSError msg | UnicodeDecodeError msg => msg
  | KeyError key => repr_str key
  | ValidationError errors => join "; " errors
  end.

(** The [except] clause of [_run_job]. *)
Definition on_failure (w : World) (exc : exn) (s : RunState) : RunState :=
  let s := update_job (set_status FAILED) s in
  let s := tick (update_job (set_finished_at (time_at w (now s))) s) in
  snd (append_log w (Failed (exn_str exc)) s).

(** The statements after the loop of [_run_job]. *)
Definition on_success (w : World) (s : RunState) : RunState :=
  let s := update_job (set_status COMPLETED) s in
  let s := tick (update_job (set_finished_at (time_at w (now s))) s) in
  snd (append_log w Finished s).

(** The loop of [_run_job] from [index] on, and what follows it. *)
Fixpoint run_inputs (w : World) (total_files : nat) (index : nat)
    (input_files : list string) (s : RunState) : RunState :=
  match input_files with
  | [] => on_success w s
  | input_file :: rest =>
      match process_input w index input_file s with
      | (Raise exc, s) => on_failure w exc s
      | (Ok _, s) =>
          let s :=
            snd (set_job_progress
                   (inject_Z (Z.of_nat index) / inject_Z (Z.of_nat total_files)) s) in
          run_inputs w total_files (S index) rest s
      end
  end.

Definition _run_job (w : World) (s : RunState) : RunState :=
  match status (job s) with
  | CANCELLED | COMPLETED => s
  | _ =>
      let s := update_job (set_status RUNNING) s in
      let s := tick (update_job (set_started_at (time_at w (now s))) s) in
      let total_files := List.length (input_files (job s)) in
      let s := snd (append_log w (Starting total_files) s) in
      run_inputs w total_files 1 (input_files (job s)) s
  end.

(** *** Worker lifecycle

    One turn of the loop of [_worker], given what [self._queue.get]
    returned ([None] when it timed out): the worker leaves the loop or
    goes round again. *)
Inductive LoopControl : Type := Continue | Break.

Definition _worker_turn (w : World) (item : option string) (app : App)
    : LoopControl * App :=
  match item with
  | None => (Continue, app)
  | Some job_id =>
      if String.eqb job_id "__stop__" then (Break, app)
      else
        match get_job (queue app) job_id with
        | None => (Continue, app)
        | Some job =>
            let s :=
              _run_job w {| job := job; now := clock app;
                            progress_writes := []; launched := [] |} in
            (Continue,
             {| settings := settings app;
                queue := set_jobs (<[job_id := ffmpeg_queue.job s]> (_jobs (queue app)))
                           (queue app);
                clock := now s; entropy := entropy app |})
        end
  end.

End ffmpeg_queue.

(** ** backend/app/main.py *)

Module main.

Record SettingsResponse : Type := {
  max_parallel_jobs : Z;
  allow_gpu : bool;
  default_output_format : string;
  ffmpeg_binary : string
}.

Definition settings_response (s : config.Settings) : SettingsResponse :=
  {| max_parallel_jobs := config.max_parallel_jobs s;
     allow_gpu := config.allow_gpu s;
     default_output_format := config.default_output_format s;
     ffmpeg_binary := config.ffmpeg_binary s |}.

(** [PATCH /settings]: the body is made a [SettingsUpdate] first, and the
    handler runs only if that succeeded. *)
Definition update_settings (body : schemas.SettingsUpdate) (app : ffmpeg_queue.App)
    : result SettingsResponse * ffmpeg_queue.App :=
  match schemas.SettingsUpdate_validate body with
  | Raise e => (Raise e, app)
  | Ok payload =>
      let app := ffmpeg_queue.update_settings payload app in
      (Ok (settings_response (ffmpeg_queue.settings app)), app)
  end.

(** [POST /jobs] from line 100 on, the uploads saved and the watermark
    payload built. *)
Definition create_job (w : ffmpeg_queue.World) (saved_files : list string)
    (watermark_payload : schemas.WatermarkSettingsIn)
    (output_format : option string) (target_device : string)
    (preset : option string) (app : ffmpeg_queue.App)
    : string * ffmpeg_queue.App :=
  let settings := ffmpeg_queue.settings app in
  let metadata : gmap string string := ∅ in
  let metadata :=
    match preset with
    | Some p => if truthy p then <["preset" := p]> metadata else metadata
    | None => metadata
    end in
  let metadata := <["ffmpeg_binary" := config.ffmpeg_binary settings]> metadata in
  let target_device :=
    if negb (String.eqb target_device "cpu") && negb (config.allow_gpu settings)
    then "cpu" else target_device in
  let '(job, app) :=
    ffmpeg_queue.create_job w saved_files watermark_payload output_format
      target_device (Some metadata) app in
  (id job, app).

End main.
Import ffmpeg_queue.

(** ** Vocabulary of the properties *)

Module props.

(** The escape the specification describes, one character at a time: a
    backslash before each backslash, colon and single quote. *)
Definition escape_char (c : ascii) : string :=
  if Ascii.eqb c "\" then "\\"
  else if Ascii.eqb c ":" then "\:"
  else if Ascii.eqb c "'" then "\'"
  else String c EmptyString.

Fixpoint escape_each (text : string) : string :=
  match text with
  | EmptyString => EmptyString
  | String c rest => escape_char c +:+ escape_each rest
  end.

(** Reading of an option list of the filter-graph language: a backslash
    protects the character after it, a colon that is not protected ends
    the field.  [take_field] returns the first field as written and what
    follows its colon, if there is one. *)
Fixpoint take_field (s : string) : string * option string :=
  match s with
  | EmptyString => (EmptyString, None)
  | String c rest =>
      if Ascii.eqb c "\" then
        match rest with
        | EmptyString => (s, None)
        | String d rest' =>
            let '(field, after) := take_field rest' in
            (String c (String d field), after)
        end
      else if Ascii.eqb c ":" then (EmptyString, Some rest)
      else
        let '(field, after) := take_field rest in
        (String c field, after)
  end.

(** The text a field stands for: protecting backslashes removed. *)
Fixpoint unescape (s : string) : string :=
  match s with
  | EmptyString => EmptyString
  | String c rest =>
      if Ascii.eqb c "\" then
        match rest with
        | EmptyString => EmptyString
        | String d rest' => String d (unescape rest')
        end
      else String c (unescape rest)
  end.

(** All the fields of an option list; [fuel] bounds their number. *)
Fixpoint fields (fuel : nat) (s : string) : list string :=
  match fuel with
  | O => []
  | S fuel' =>
      match take_field s with
      | (field, None) => [field]
      | (field, Some after) => field :: fields fuel' after
      end
  end.



(** The anchor table as the specification writes it, the offsets already
    printed. *)
Definition anchor_table (ox oy : string) : list (string * (string * string)) :=
  [ ("top-left", (ox, oy));
    ("top-right", ("W-w-" +:+ ox, oy));
    ("bottom-left", (ox, "H-h-" +:+ oy));
    ("bottom-right", ("W-w-" +:+ ox, "H-h-" +:+ oy));
    ("center", ("(W-w)/2", "(H-h)/2")) ].

Definition is_lower_hex (c : ascii) : bool :=
  let n := nat_of_ascii c in
  ((48 <=? n)%nat && (n <=? 57)%nat) || ((97 <=? n)%nat && (n <=? 102)%nat).


(** *** Vocabulary of a run *)

(** The message of a log entry: what follows the first closing bracket
    and the space after it. *)
Fixpoint entry_message (entry : string) : string :=
  match entry with
  | EmptyString => EmptyString
  | String c rest =>
      if Ascii.eqb c "]" then
        match rest with
        | EmptyString => EmptyString
        | String _ message => message
        end
      else entry_message rest
  end.

Definition messages (l : list string) : list string := map entry_message l.

(** The texts of the messages the queue logs. *)
Definition texts (l : list Message) : list string := map message_text l.

(** A failure entry says [Failed: ] and a reason; the completion entry says
    [Job finished successfully]. *)
Definition is_failed (message : string) : bool :=
  startswith "Failed: " message.

Definition is_finished (message : string) : bool :=
  String.eqb message "Job finished successfully".

(** The number of failure entries, and of completion entries, of a log. *)
Definition count_failed (l : list string) : nat :=
  List.length (List.filter is_failed (messages l)).

Definition count_finished (l : list string) : nat :=
  List.length (List.filter is_finished (messages l)).

(** The lines of process output among the messages logged, and the
    messages the loop of [_run_job] logs. *)
Definition outputs (msgs : list Message) : list string :=
  flat_map (fun m => match m with Output line => [line] | _ => [] end) msgs.

Definition in_loop (m : Message) : bool :=
  match m with
  | Processing _ _ | Command _ | Output _ | Completed _ => true
  | _ => false
  end.

(** The characters of a timestamp. *)
Definition stamp_char (c : ascii) : bool :=
  let n := nat_of_ascii c in
  ((48 <=? n)%nat && (n <=? 57)%nat)
  || existsb (Ascii.eqb c) ["-"; " "; ":"]%char.

(** A job as [create_job] leaves it in the queue. *)
Definition as_created (j : Job) : Prop :=
  status j = QUEUED /\ started_at j = None /\ finished_at j = None
  /\ progress j = 0%Q /\ messages (log j) = texts [Created].

(** The output path [_run_job] gives an input, and its command. *)
Definition output_path_of (j : Job) (input_file : string) : string :=
  joinpath (output_dir j) (stem input_file +:+ "_watermarked." +:+ output_format j).

Definition command_of (j : Job) (input_file : string) : result (list string) :=
  build_ffmpeg_command j input_file (output_path_of j input_file).

(** What happens to the input at [index], read off the job and the world:
    the messages logged for it, the command started for it (at most one),
    and the exception that ends it, if any. *)
Definition attempt (w : World) (j : Job) (index : nat) (input_file : string)
    : list Message * list (list string) * option exn :=
  let output_path := output_path_of j input_file in
  match mkdir w index output_path with
  | Some msg => ([], [], Some (OSError msg))
  | None =>
      match command_of j input_file with
      | Raise e => ([], [], Some e)
      | Ok cmd =>
          let announced :=
            [Processing (name input_file) (name output_path);
             Command (command_as_string cmd)] in
          match popen w index cmd with
          | SpawnError msg => (announced, [], Some (OSError msg))
          | Garbled lines msg =>
              (announced ++ map Output lines, [cmd], Some (UnicodeDecodeError msg))
          | Spawned lines return_code =>
              if negb (return_code =? 0)%Z then
                (announced ++ map Output lines, [cmd],
                 Some (RuntimeError
                         ("FFmpeg exited with code " +:+ str_int return_code)))
              else
                (announced ++ map Output lines ++ [Completed (name input_file)],
                 [cmd], None)
          end
      end
  end.

(** The input at [index] succeeds when [input_error] is [None], and fails
    with [e] when it is [Some e]. *)
Definition input_error (w : World) (j : Job) (index : nat) (input_file : string)
    : option exn :=
  snd (attempt w j index input_file).

(** The messages and commands of the inputs from [index] on, up to and
    including the first that fails. *)
Fixpoint transcript (w : World) (j : Job) (index : nat) (files : list string)
    : list Message * list (list string) :=
  match files with
  | [] => ([], [])
  | input_file :: rest =>
      let '(msgs, cmds, err) := attempt w j index input_file in
      match err with
      | Some _ => (msgs, cmds)
      | None =>
          let '(msgs', cmds') := transcript w j (S index) rest in
          (msgs ++ msgs', cmds ++ cmds')
      end
  end.

(** [s'] is [s] after [msgs] were logged, [cmds] started and [writes]
    assigned to the progress, nothing else of the job having changed. *)
Record Extends (s s' : RunState) (msgs : list Message)
    (cmds : list (list string)) (writes : list Q) : Prop := {
  ext_input_files : input_files (job s') = input_files (job s);
  ext_watermark : watermark (job s') = watermark (job s);
  ext_output_format : output_format (job s') = output_format (job s);
  ext_output_dir : output_dir (job s') = output_dir (job s);
  ext_target_device : target_device (job s') = target_device (job s);
  ext_metadata : metadata (job s') = metadata (job s);
  ext_status : status (job s') = status (job s);
  ext_started_at : started_at (job s') = started_at (job s);
  ext_finished_at : finished_at (job s') = finished_at (job s);
  ext_progress : progress (job s') = List.last writes (progress (job s));
  ext_log : messages (log (job s')) = messages (log (job s)) ++ texts msgs;
  ext_launched : launched s' = launched s ++ cmds;
  ext_writes : progress_writes s' = progress_writes s ++ writes;
  ext_now : (now s <= now s')%nat
}.

(** The values [i/total] for [i] from [index] on, [count] of them. *)
Definition fractions (total index count : nat) : list Q :=
  map (fun i => inject_Z (Z.of_nat i) / inject_Z (Z.of_nat total))%Q
      (seq index count).

Fixpoint nondecreasing (l : list Q) : Prop :=
  match l with
  | a :: (b :: _) as rest => (a <= b)%Q /\ nondecreasing rest
  | _ => True
  end.

End props.
Import props.

(** ** Sample values *)

Module samples.

Definition text_watermark : WatermarkSettings :=
  {| models.type := TEXT; models.text := Some "Hi: there";
     models.font_path := None; models.font_size := 36;
     models.color := "white"; models.image_path := None;
     models.opacity := 1; models.position := "center";
     models.offset_x := 0; models.offset_y := 0 |}.

Definition with_watermark (wm : WatermarkSettings) (files : list string) : Job :=
  {| input_files := files; watermark := wm; output_format := "mp4";
     output_dir := "storage/output"; target_device := "cpu";
     id := hex (uuid4 0); status := QUEUED; created_at := 0;
     started_at := None; finished_at := None; progress := 0;
     log := ["[2024-01-01 00:00:00] Job created and queued"];
     metadata := {["ffmpeg_binary" := "ffmpeg"]} |}.

Definition text_job : Job := with_watermark text_watermark ["in/a.mp4"; "in/b.mp4"].

Definition faded_watermark : WatermarkSettings :=
  {| models.type := TEXT; models.text := Some "demo";
     models.font_path := None; models.font_size := 36;
     models.color := "white"; models.image_path := None;
     models.opacity := 1 # 2; models.position := "top-right";
     models.offset_x := 20; models.offset_y := 20 |}.


Definition image_watermark : WatermarkSettings :=
  {| models.type := IMAGE; models.text := None;
     models.font_path := None; models.font_size := 36;
     models.color := "white"; models.image_path := Some "storage/uploads/logo.png";
     models.opacity := 1; models.position := "bottom-right";
     models.offset_x := 20; models.offset_y := 20 |}.

Definition image_job : Job := with_watermark image_watermark ["in/a.mp4"].

Definition font_watermark : WatermarkSettings :=
  {| models.type := TEXT; models.text := Some "Hi: there";
     models.font_path := Some "C:/Windows/Fonts/arial.ttf"; models.font_size := 36;
     models.color := "white"; models.image_path := None;
     models.opacity := 1; models.position := "center";
     models.offset_x := 0; models.offset_y := 0 |}.

Definition font_job : Job := with_watermark font_watermark ["in/a.mp4"].

Definition world : World :=
  {| time_at := fun n => inject_Z (1700000000 + Z.of_nat n);
     localtime_at := fun n =>
       {| tm_year := 2024; tm_mon := 1; tm_mday := 1;
          tm_hour := 0; tm_min := 0; tm_sec := Z.of_nat n |};
     mkdir := fun _ _ => None;
     popen := fun _ _ => Spawned ["frame=    1 fps=0.0"] 0;
     urandom := fun n => (7919 * (N.of_nat n + 1))%N |}.

(** A world in which the process for the second input exits with code 1. *)
Definition failing_world : World :=
  {| time_at := time_at world;
     localtime_at := localtime_at world;
     mkdir := mkdir world;
     popen := fun index _ =>
       if (index =? 2)%nat then Spawned ["Conversion failed!"] 1
       else Spawned ["frame=    1 fps=0.0"] 0;
     urandom := urandom world |}.

(** A world in which the process prints a line that reads as a failure
    entry and exits with code 1; one in which it prints a line that reads
    as the completion entry and exits with code 0; and one whose clock is
    set back one second between any two readings. *)
Definition complaining_world : World :=
  {| time_at := time_at world;
     localtime_at := localtime_at world;
     mkdir := mkdir world;
     popen := fun _ _ => Spawned ["Failed: no such filter"] 1;
     urandom := urandom world |}.

Definition boasting_world : World :=
  {| time_at := time_at world;
     localtime_at := localtime_at world;
     mkdir := mkdir world;
     popen := fun _ _ => Spawned ["Job finished successfully"] 0;
     urandom := urandom world |}.

Definition backwards_world : World :=
  {| time_at := fun n => inject_Z (1700000000 - Z.of_nat n);
     localtime_at := localtime_at world;
     mkdir := mkdir world;
     popen := popen world;
     urandom := urandom world |}.

Definition settings : config.Settings :=
  {| config.storage_root := "storage"; config.upload_dir := "uploads";
     config.output_dir := "output"; config.temp_dir := "tmp";
     config.default_output_format := "mp4"; config.max_parallel_jobs := 2;
     config.ffmpeg_binary := "ffmpeg"; config.allow_gpu := false |}.

Definition app : App :=
  {| ffmpeg_queue.settings := settings;
     queue := {| _jobs := ∅; _queue := [];
                 _workers := [{| alive := true |}; {| alive := true |}];
                 _max_parallel_jobs := 2; _stop_event := false |};
     clock := 0; entropy := 0 |}.

Definition text_payload : schemas.WatermarkSettingsIn :=
  {| schemas.type := TEXT; schemas.text := Some "Hi: there";
     schemas.font_path := None; schemas.font_size := 36;
     schemas.color := "white"; schemas.image_path := None;
     schemas.opacity := 1; schemas.position := "center";
     schemas.offset_x := 0; schemas.offset_y := 0 |}.

Definition zero_workers : schemas.SettingsUpdate :=
  {| schemas.max_parallel_jobs := Some 0%Z; schemas.allow_gpu := None;
     schemas.default_output_format := None; schemas.ffmpeg_binary := None |}.

Definition empty_format : schemas.SettingsUpdate :=
  {| schemas.max_parallel_jobs := None; schemas.allow_gpu := None;
     schemas.default_output_format := Some ""; schemas.ffmpeg_binary := None |}.

Definition three_workers : schemas.SettingsUpdate :=
  {| schemas.max_parallel_jobs := Some 3%Z; schemas.allow_gpu := None;
     schemas.default_output_format := None; schemas.ffmpeg_binary := None |}.

Definition start (j : Job) : RunState :=
  {| job := j; now := 0; progress_writes := []; launched := [] |}.

Definition three_file_job : Job :=
  with_watermark text_watermark ["in/a.mp4"; "in/b.mp4"; "in/c.mp4"].

Definition one_file_job : Job := with_watermark text_watermark ["in/a.mp4"].

End samples.

(** ** Vocabulary of the further properties *)

Module history.

(** [s'] is a later state of the run that was in [s]: what identifies and
    configures the job is the same, and the log has only grown. *)
Record Grows (s s' : RunState) : Prop := {
  grows_input_files : input_files (job s') = input_files (job s);
  grows_watermark : watermark (job s') = watermark (job s);
  grows_output_format : output_format (job s') = output_format (job s);
  grows_output_dir : output_dir (job s') = output_dir (job s);
  grows_target_device : target_device (job s') = target_device (job s);
  grows_id : id (job s') = id (job s);
  grows_created_at : created_at (job s') = created_at (job s);
  grows_metadata : metadata (job s') = metadata (job s);
  grows_log : exists added, log (job s') = log (job s) ++ added;
  grows_now : (now s <= now s')%nat
}.

(** A status a worker runs a job from. *)
Definition runnable (st : JobStatus) : Prop :=
  st <> CANCELLED /\ st <> COMPLETED.

(** The state [_run_job] enters its loop in. *)
Definition entered (w : World) (s : RunState) : RunState :=
  {| job :=
       models.append_log (strftime_at w (S (now s)))
         (message_text (Starting (List.length (input_files (job s)))))
         (set_started_at (time_at w (now s)) (set_status RUNNING (job s)));
     now := S (S (now s));
     progress_writes := progress_writes s;
     launched := launched s |}.

End history.
Import history.

(** ** backend/app/ffmpeg_queue.py: the loop of a worker *)

Module worker.

Definition set_queue (items : list string) (self : FFmpegQueue) : FFmpegQueue :=
  {| _jobs := _jobs self; _queue := items; _workers := _workers self;
     _max_parallel_jobs := _max_parallel_jobs self;
     _stop_event := _stop_event self |}.

(** [self._queue.get(timeout=0.5)]: the oldest item, taken off the queue, or
    [None] ([queue.Empty]) when there is none. *)
Definition queue_get (self : FFmpegQueue) : option string * FFmpegQueue :=
  match _queue self with
  | [] => (None, self)
  | item :: rest => (Some item, set_queue rest self)
  end.

(** One turn of the loop of [_worker], the item taken from the queue. *)
Definition _worker_iteration (w : World) (app : App) : LoopControl * App :=
  let '(item, self) := queue_get (queue app) in
  _worker_turn w item
    {| settings := settings app; queue := self;
       clock := clock app; entropy := entropy app |}.

(** [_worker], for at most [turns] turns of its loop: it stops when the stop
    event is set or a turn breaks out. *)
Fixpoint _worker (w : World) (turns : nat) (app : App) : App :=
  match turns with
  | O => app
  | S turns' =>
      if _stop_event (queue app) then app
      else
        match _worker_iteration w app with
        | (Break, app) => app
        | (Continue, app) => _worker w turns' app
        end
  end.

(** [_start_workers]: one live thread for each of the [_max_parallel_jobs]. *)
Definition _start_workers (self : FFmpegQueue) : FFmpegQueue :=
  {| _jobs := _jobs self; _queue := _queue self;
     _workers :=
       _workers self
         ++ repeat {| alive := true |} (Z.to_nat (_max_parallel_jobs self));
     _max_parallel_jobs := _max_parallel_jobs self;
     _stop_event := _stop_event self |}.

(** [FFmpegQueue.__init__]. *)
Definition init (settings : config.Settings) : FFmpegQueue :=
  _start_workers
    {| _jobs := ∅; _queue := []; _workers := [];
       _max_parallel_jobs := config.max_parallel_jobs settings;
       _stop_event := false |}.

(** The statuses of a job that is neither waiting nor being run. *)
Definition terminal (st : JobStatus) : Prop :=
  st = COMPLETED \/ st = FAILED \/ st = CANCELLED.

End worker.
Import worker.

Module cases.

Definition pathless_watermark : WatermarkSettings :=
  {| models.type := IMAGE; models.text := None;
     models.font_path := None; models.font_size := 36;
     models.color := "white"; models.image_path := None;
     models.opacity := 1; models.position := "top-left";
     models.offset_x := 20; models.offset_y := 20 |}.

Definition pathless_job : Job :=
  samples.with_watermark pathless_watermark ["in/a.mp4"; "in/b.mp4"].

(** Two jobs created one after the other, then the pool reduced from two
    workers to one. *)
Definition one_worker : schemas.SettingsUpdate :=
  {| schemas.max_parallel_jobs := Some 1%Z; schemas.allow_gpu := None;
     schemas.default_output_format := None; schemas.ffmpeg_binary := None |}.

Definition first_created : Job * App :=
  create_job samples.world ["in/a.mp4"] samples.text_payload None "cpu" None
    samples.app.

Definition second_created : Job * App :=
  create_job samples.world ["in/b.mp4"; "in/c.mp4"] samples.text_payload None
    "cpu" None (snd first_created).


(** A job created with a slash after the output format. *)
Definition slashed_created : Job * App :=
  create_job samples.world ["in/a.mp4"] samples.text_payload (Some "mp4/")
    "cpu" None samples.app.

End cases.

(** ** Sequences of requests *)

Module requests.

(** [PATCH /settings] with each of [bodies] in turn. *)
Definition patch_settings_all (bodies : list schemas.SettingsUpdate) (app : App) : App :=
  fold_left (fun app body => snd (main.update_settings body app)) bodies app.

(** What [update_settings] does to a job when something changed:
    [job.metadata.setdefault("ffmpeg_binary", binary)]. *)
Definition record_binary (binary : string) (job : Job) : Job :=
  set_metadata (dict_setdefault "ffmpeg_binary" binary (metadata job)) job.

(** The application as it starts: the settings and the queue made from
    them. *)
Definition boot (settings : config.Settings) : App :=
  {| ffmpeg_queue.settings := settings; queue := init settings;
     clock := 0; entropy := 0 |}.

End requests.
Import requests.

(** ** Reading a command line as a POSIX shell does *)

Module shell.

(** What an unquoted character is to the shell: a blank between words, one
    of the two quotes, the backslash, a character the shell gives a meaning
    of its own (operators, expansions, patterns, comments), or a character
    that stands for itself. *)
Inductive Kind : Type := Blank | SingleQuote | DoubleQuote | Backslash | Special | Literal.

Definition kind (c : ascii) : Kind :=
  let n := nat_of_ascii c in
  if (n =? 32)%nat || (n =? 9)%nat then Blank
  else if (n =? 39)%nat then SingleQuote
  else if (n =? 34)%nat then DoubleQuote
  else if (n =? 92)%nat then Backslash
  else if existsb (Nat.eqb n)
            [10; 124; 38; 59; 60; 62; 40; 41; 36; 96; 42; 63; 91; 35; 126]%nat
       then Special
  else Literal.

Inductive Mode : Type := Plain | Single | Double.

Definition push (word : option string) (c : ascii) : option string :=
  Some (default EmptyString word +:+ String c EmptyString).

Definition finish (word : option string) (rest : option (list string))
    : option (list string) :=
  match word with
  | None => rest
  | Some w => option_map (cons w) rest
  end.

(** The words of a command line: blanks separate them, a backslash keeps the
    next character, single quotes keep everything up to the next single
    quote, double quotes keep everything up to the next double quote but
    for the backslash before a dollar, a backquote, a double quote or a
    backslash; a backslash and the newline after it are dropped.  There is
    no expansion: the reading fails ([None]) on a character the shell would
    interpret and on a quote left open.  [word] is the word being read, if
    any. *)
Fixpoint read (m : Mode) (word : option string) (s : string)
    : option (list string) :=
  match s with
  | EmptyString =>
      match m with
      | Plain => finish word (Some [])
      | Single | Double => None
      end
  | String c rest =>
      match m with
      | Plain =>
          match kind c with
          | Blank => finish word (read Plain None rest)
          | SingleQuote => read Single (Some (default EmptyString word)) rest
          | DoubleQuote => read Double (Some (default EmptyString word)) rest
          | Backslash =>
              match rest with
              | EmptyString => None
              | String d rest' =>
                  if (nat_of_ascii d =? 10)%nat then read Plain word rest'
                  else read Plain (push word d) rest'
              end
          | Special => None
          | Literal => read Plain (push word c) rest
          end
      | Single =>
          if Ascii.eqb c "'" then read Plain word rest
          else read Single (push word c) rest
      | Double =>
          match kind c with
          | DoubleQuote => read Plain word rest
          | Backslash =>
              match rest with
              | EmptyString => None
              | String d rest' =>
                  if (nat_of_ascii d =? 10)%nat then read Double word rest'
                  else if existsb (Nat.eqb (nat_of_ascii d)) [36; 96; 34; 92]%nat
                  then read Double (push word d) rest'
                  else read Double (push (push word c) d) rest'
              end
          | _ =>
              if existsb (Nat.eqb (nat_of_ascii c)) [36; 96]%nat then None
              else read Double (push word c) rest
          end
      end
  end.

Definition words (line : string) : option (list string) := read Plain None line.

End shell.
Import shell.

(** ** Counting in a text *)

Module text.

(** The characters [escape_text] puts a backslash before. *)
Definition needs_escape (c : ascii) : bool :=
  Ascii.eqb c "\" || Ascii.eqb c ":" || Ascii.eqb c "'".

Fixpoint count_chars (p : ascii -> bool) (s : string) : nat :=
  match s with
  | EmptyString => 0
  | String c rest => (if p c then 1 else 0) + count_chars p rest
  end.

End text.
Import text.

(** ** Jobs with a value outside the tables *)

Module strays.

Definition misplaced_watermark : WatermarkSettings :=
  {| models.type := TEXT; models.text := Some "demo";
     models.font_path := None; models.font_size := 36;
     models.color := "white"; models.image_path := None;
     models.opacity := 1; models.position := "middle";
     models.offset_x := 20; models.offset_y := 20 |}.

Definition misplaced_job : Job :=
  samples.with_watermark misplaced_watermark ["in/a.mp4"].

Definition amd_job : Job :=
  {| input_files := ["in/a.mp4"]; watermark := samples.text_watermark;
     output_format := "mp4"; output_dir := "storage/output";
     target_device := "amd";
     id := hex (uuid4 0); status := QUEUED; created_at := 0;
     started_at := None; finished_at := None; progress := 0;
     log := ["[2024-01-01 00:00:00] Job created and queued"];
     metadata := {["ffmpeg_binary" := "ffmpeg"]} |}.

End strays.
Import strays.

(** ** The queue shut down *)

Module closing.

(** The application after [ffmpeg_queue.shutdown()]. *)
Definition shut_down (app : App) : App :=
  {| ffmpeg_queue.settings := ffmpeg_queue.settings app;
     queue := shutdown (queue app);
     clock := clock app; entropy := entropy app |}.

End closing.
Import closing.

(** * Properties *)

(** ** Strings *)

Lemma append_assoc (a b c : string) : (a +:+ b) +:+ c = a +:+ (b +:+ c).
Proof. induction a as [|x a IH]; simpl; [reflexivity | now rewrite IH]. Qed.

Lemma append_nil_r (a : string) : a +:+ "" = a.
Proof. induction a as [|x a IH]; simpl; [reflexivity | now rewrite IH]. Qed.

Lemma replace_app (old : ascii) (new a b : string) :
  replace old new (a +:+ b) = replace old new a +:+ replace old new b.
Proof.
  induction a as [|x a IH]; [reflexivity |].
  simpl. rewrite IH. destruct (Ascii.eqb x old).
  - symmetry. apply append_assoc.
  - reflexivity.
Qed.

(** The three passes of [escape_text] amount to one pass that escapes each
    character on its own. *)
Lemma escape_text_each (text : string) : escape_text text = escape_each text.
Proof.
  unfold escape_text. induction text as [|c text IH]; [reflexivity |].
  cbn [replace escape_each]. rewrite !replace_app, IH. f_equal.
  unfold escape_char.
  destruct (Ascii.eqb_spec c "\") as [->|Hb]; [reflexivity |].
  destruct (Ascii.eqb_spec c ":") as [->|Hc]; [reflexivity |].
  destruct (Ascii.eqb_spec c "'") as [->|Hq]; [reflexivity |].
  apply Ascii.eqb_neq in Hc, Hq.
  simpl. rewrite Hc. simpl. now rewrite Hq.
Qed.

Lemma take_field_escape_each (text rest : string) :
  take_field (escape_each text +:+ String ":" rest) = (escape_each text, Some rest).
Proof.
  induction text as [|c text IH]; [reflexivity |].
  cbn [escape_each]. unfold escape_char.
  destruct (Ascii.eqb_spec c "\") as [->|Hb].
  { cbn. cbn in IH. now rewrite IH. }
  destruct (Ascii.eqb_spec c ":") as [->|Hc].
  { cbn. cbn in IH. now rewrite IH. }
  destruct (Ascii.eqb_spec c "'") as [->|Hq].
  { cbn. cbn in IH. now rewrite IH. }
  cbn [String.append take_field].
  apply Ascii.eqb_neq in Hb, Hc. rewrite Hb, Hc.
  cbn in IH. now rewrite IH.
Qed.

Lemma unescape_escape_each (text : string) : unescape (escape_each text) = text.
Proof.
  induction text as [|c text IH]; [reflexivity |].
  cbn [escape_each]. unfold escape_char.
  destruct (Ascii.eqb_spec c "\") as [->|Hb]; [cbn; now rewrite IH |].
  destruct (Ascii.eqb_spec c ":") as [->|Hc]; [cbn; now rewrite IH |].
  destruct (Ascii.eqb_spec c "'") as [->|Hq]; [cbn; now rewrite IH |].
  cbn [String.append unescape].
  apply Ascii.eqb_neq in Hb. now rewrite Hb, IH.
Qed.

(** ** The command builder *)

Lemma resolve_position_table (w : WatermarkSettings) (p x y : string) :
  In (p, (x, y)) (anchor_table (str_int (offset_x w)) (str_int (offset_y w))) ->
  position w = p ->
  resolve_position w = Ok (x, y).
Proof.
  intros Hin Hp. unfold resolve_position. rewrite Hp.
  simpl in Hin.
  repeat (destruct Hin as [Hin|Hin];
          [injection Hin as <- <- <-; simpl; now rewrite ?append_nil_r |]).
  destruct Hin.
Qed.

Lemma drawtext_filter (job : Job) (x y : string) :
  type (watermark job) = TEXT ->
  resolve_position (watermark job) = Ok (x, y) ->
  exists rest,
    build_filter_and_inputs job
    = Ok ([], ["drawtext=text="
                 +:+ escape_text (default "" (text (watermark job)))
                 +:+ ":fontcolor=" +:+ text_color (watermark job)
                 +:+ ":fontsize=" +:+ str_int (font_size (watermark job))
                 +:+ ":x=" +:+ x +:+ ":y=" +:+ y +:+ rest])
    /\ (rest = "" \/ exists p, font_path (watermark job) = Some p
                               /\ rest = ":fontfile=" +:+ p).
Proof.
  intros Htype Hpos. unfold build_filter_and_inputs. rewrite Hpos, Htype.
  unfold drawtext_args.
  destruct (font_path (watermark job)) as [p|] eqn:Hfont.
  - destruct (truthy p).
    + exists (":fontfile=" +:+ p). split; [| right; eauto].
      simpl. rewrite ?append_assoc, ?append_nil_r. reflexivity.
    + exists "". split; [| now left].
      simpl. rewrite ?append_assoc, ?append_nil_r. reflexivity.
  - exists "". split; [| now left].
    simpl. rewrite ?append_assoc, ?append_nil_r. reflexivity.
Qed.

(** C2: the text of a text watermark is escaped by a backslash before each
    backslash, colon and single quote, the backslashes first, so that every
    character of the text is escaped once and no backslash the later passes
    add is escaped again (escaping the backslashes last would: see the
    fourth part).  The text "Hi: there" becomes [Hi\: there].  In the filter
    expression built, the first colon that is not protected by a backslash
    is the one that follows the escaped text: no colon of the text ends the
    [text] option, and the option read back is the text. *)
Theorem escape_text_protects_drawtext (job : Job) (x y : string) :
  type (watermark job) = TEXT ->
  resolve_position (watermark job) = Ok (x, y) ->
  let literal := default "" (text (watermark job)) in
  escape_text literal = escape_each literal
  /\ unescape (escape_text literal) = literal
  /\ escape_text "Hi: there" = "Hi\: there"
  /\ replace "\" "\\" (replace ":" "\:" "Hi: there") = "Hi\\: there"
  /\ exists options rest,
       build_filter_and_inputs job = Ok ([], ["drawtext=" +:+ options])
       /\ take_field options = ("text=" +:+ escape_text literal, Some rest).
Proof.
  intros Htype Hpos literal.
  split; [apply escape_text_each |].
  split; [rewrite escape_text_each; apply unescape_escape_each |].
  split; [reflexivity |].
  split; [reflexivity |].
  destruct (drawtext_filter job x y Htype Hpos) as (tail & Hbuild & _).
  eexists. eexists. split.
  - rewrite Hbuild. simpl. reflexivity.
  - fold literal. rewrite escape_text_each. simpl.
    rewrite (take_field_escape_each literal). reflexivity.
Qed.

Lemma escape_text_protects_drawtext_witness :
  type (watermark samples.text_job) = TEXT
  /\ resolve_position (watermark samples.text_job) = Ok ("(W-w)/2", "(H-h)/2")
  /\ exists options rest,
       build_filter_and_inputs samples.text_job = Ok ([], ["drawtext=" +:+ options])
       /\ take_field options = ("text=Hi\: there", Some rest).
Proof.
  split; [reflexivity |]. split; [reflexivity |].
  exact (proj2 (proj2 (proj2 (proj2
    (escape_text_protects_drawtext samples.text_job "(W-w)/2" "(H-h)/2"
       eq_refl eq_refl))))).
Defined.

Lemma resolve_position_known (w : WatermarkSettings) (x y : string) :
  resolve_position w = Ok (x, y) ->
  In (position w, (x, y))
     (anchor_table (str_int (offset_x w)) (str_int (offset_y w))).
Proof.
  unfold resolve_position, POSITION_MAP_get, POSITION_MAP. cbn [List.find fst snd].
  destruct (String.eqb_spec "top-left" (position w)) as [<-|_].
  { simpl. rewrite !append_nil_r. intros [= <- <-]. now left. }
  destruct (String.eqb_spec "top-right" (position w)) as [<-|_].
  { simpl. rewrite !append_nil_r. intros [= <- <-]. right. now left. }
  destruct (String.eqb_spec "bottom-left" (position w)) as [<-|_].
  { simpl. rewrite !append_nil_r. intros [= <- <-]. do 2 right. now left. }
  destruct (String.eqb_spec "bottom-right" (position w)) as [<-|_].
  { simpl. rewrite !append_nil_r. intros [= <- <-]. do 3 right. now left. }
  destruct (String.eqb_spec "center" (position w)) as [<-|_].
  { simpl. intros [= <- <-]. do 4 right. now left. }
  discriminate.
Qed.

(** C3: the x and y expressions of a watermark are those of the fixed table
    at its position, with the offsets printed in decimal: [resolve_position]
    returns a pair exactly when the table has it under the position.  At
    top-right with offsets 20 and 20 the pair is [W-w-20] and [20]; at
    center the offsets do not appear. *)
Theorem resolve_position_is_anchor_table (w : WatermarkSettings) :
  (forall x y,
     resolve_position w = Ok (x, y)
     <-> In (position w, (x, y))
            (anchor_table (str_int (offset_x w)) (str_int (offset_y w))))
  /\ anchor_table (str_int 20) (str_int 20)
     = [ ("top-left", ("20", "20")); ("top-right", ("W-w-20", "20"));
         ("bottom-left", ("20", "H-h-20")); ("bottom-right", ("W-w-20", "H-h-20"));
         ("center", ("(W-w)/2", "(H-h)/2")) ]
  /\ resolve_position samples.faded_watermark = Ok ("W-w-20", "20").
Proof.
  split; [| split; reflexivity].
  intros x y. split.
  - apply resolve_position_known.
  - intros Hin. now apply (resolve_position_table w (position w) x y).
Qed.








(** C7: the command built for a job, an input and an output is, in order:
    the binary, [-y], [-i] and the input, the extra inputs, [-filter_complex]
    and the filters joined with [;], the video-codec clause of the target
    device ([libx264] with the preset, [medium] unless the metadata names
    one, for cpu; [h264_qsv] for intel; [h264_nvenc] for nvidia), [-c:a copy]
    and the output.  It is a function of its three arguments, and it raises
    (the [ValueError] of the image path) exactly when the watermark is an
    image without an image path. *)
Theorem build_ffmpeg_command_layout (job : Job) (input_file output_file x y : string) :
  resolve_position (watermark job) = Ok (x, y) ->
  let w := watermark job in
  let missing := type w = IMAGE /\ image_path w = None in
  (missing ->
     build_ffmpeg_command job input_file output_file
     = Raise (ValueError "Image watermark requires an image path"))
  /\ (~ missing ->
      exists inputs filters,
        build_filter_and_inputs job = Ok (inputs, filters)
        /\ filters <> []
        /\ build_ffmpeg_command job input_file output_file
           = Ok ([default "ffmpeg" (metadata job !! "ffmpeg_binary");
                  "-y"; "-i"; input_file]
                 ++ inputs
                 ++ ["-filter_complex"; join ";" filters]
                 ++ codec_clause job
                 ++ ["-c:a"; "copy"; output_file]))
  /\ (target_device job = "cpu" ->
      codec_clause job
      = ["-c:v"; "libx264"; "-preset"; default "medium" (metadata job !! "preset")])
  /\ (target_device job = "intel" -> codec_clause job = ["-c:v"; "h264_qsv"])
  /\ (target_device job = "nvidia" -> codec_clause job = ["-c:v"; "h264_nvenc"]).
Proof.
  intros Hpos w missing. subst missing w.
  split; [| split; [| repeat split]].
  - intros [Htype Himg]. unfold build_ffmpeg_command, build_filter_and_inputs.
    cbv zeta. now rewrite Hpos, Htype, Himg.
  - intros Hok.
    assert (Hbuild : exists inputs f,
               build_filter_and_inputs job = Ok (inputs, [f])).
    { destruct (type (watermark job)) eqn:Htype.
      - destruct (drawtext_filter job x y Htype Hpos) as (tail & Hb & _). eauto.
      - destruct (image_path (watermark job)) as [p|] eqn:Himg.
        + unfold build_filter_and_inputs. cbv zeta. rewrite Hpos, Htype, Himg. eauto.
        + now destruct Hok. }
    destruct Hbuild as (inputs & f & Hbuild).
    exists inputs, [f]. split; [exact Hbuild |]. split; [discriminate |].
    unfold build_ffmpeg_command. rewrite Hbuild. cbv zeta.
    now rewrite <- !app_assoc.
  - intros Hdev. unfold codec_clause. now rewrite Hdev.
  - intros Hdev. unfold codec_clause. now rewrite Hdev.
  - intros Hdev. unfold codec_clause. now rewrite Hdev.
Qed.

Lemma build_ffmpeg_command_layout_witness :
  resolve_position (watermark samples.image_job) = Ok ("W-w-20", "H-h-20")
  /\ build_ffmpeg_command samples.image_job "in/a.mp4" "storage/output/a_watermarked.mp4"
     = Ok ["ffmpeg"; "-y"; "-i"; "in/a.mp4"; "-i"; "storage/uploads/logo.png";
           "-filter_complex";
           "[1]format=rgba,colorchannelmixer=aa=1.00[wm];[0][wm]overlay=W-w-20:H-h-20";
           "-c:v"; "libx264"; "-preset"; "medium";
           "-c:a"; "copy"; "storage/output/a_watermarked.mp4"].
Proof.
  split; [reflexivity |].
  destruct (proj1 (proj2
    (build_ffmpeg_command_layout samples.image_job "in/a.mp4"
       "storage/output/a_watermarked.mp4" "W-w-20" "H-h-20" eq_refl)))
    as (inputs & filters & Hfilter & _ & Hcmd).
  - intros [_ Hnone]. discriminate Hnone.
  - rewrite Hcmd. injection Hfilter as <- <-. reflexivity.
Defined.

(** C1 (the code departs from it): the font file path of a text watermark
    enters the filter expression as it was given, while the text beside it
    is escaped.  With the font [C:/Windows/Fonts/arial.ttf] the colon of the
    path ends the [fontfile] option after [C].  The command itself is a list
    of tokens, and [command_as_string] quotes each token for the log. *)
Theorem font_path_enters_filter_unescaped :
  build_filter_and_inputs samples.font_job
  = Ok ([], ["drawtext=text=Hi\: there:fontcolor=white:fontsize=36:x=(W-w)/2:y=(H-h)/2:fontfile=C:/Windows/Fonts/arial.ttf"])
  /\ fields 16 "text=Hi\: there:fontcolor=white:fontsize=36:x=(W-w)/2:y=(H-h)/2:fontfile=C:/Windows/Fonts/arial.ttf"
     = ["text=Hi\: there"; "fontcolor=white"; "fontsize=36"; "x=(W-w)/2";
        "y=(H-h)/2"; "fontfile=C"; "/Windows/Fonts/arial.ttf"]
  /\ fields 16 ("text=Hi\: there:fontcolor=white:fontsize=36:x=(W-w)/2:y=(H-h)/2:fontfile="
                  +:+ escape_text "C:/Windows/Fonts/arial.ttf")
     = ["text=Hi\: there"; "fontcolor=white"; "fontsize=36"; "x=(W-w)/2";
        "y=(H-h)/2"; "fontfile=C\:/Windows/Fonts/arial.ttf"]
  /\ (forall cmd, command_as_string cmd = join " " (map shlex_quote cmd))
  /\ command_as_string ["ffmpeg"; "-y"; "-i"; "in/my clip.mp4"; "-c:a"; "copy"; "it's.mp4"]
     = "ffmpeg -y -i 'in/my clip.mp4' -c:a copy "
         +:+ "'it'" +:+ dquote +:+ "'" +:+ dquote +:+ "'s.mp4'".
Proof. repeat split; reflexivity. Qed.

(** ** The queue *)

Lemma length_append (a b : string) :
  String.length (a +:+ b) = (String.length a + String.length b)%nat.
Proof. induction a as [|c a IH]; simpl; [reflexivity | now rewrite IH]. Qed.

Lemma all_chars_append (p : ascii -> bool) (a b : string) :
  all_chars p (a +:+ b) = all_chars p a && all_chars p b.
Proof.
  induction a as [|c a IH]; simpl; [reflexivity |].
  rewrite IH. now destruct (p c).
Qed.

Lemma hex_digit_lower (d : N) : (d < 16)%N -> is_lower_hex (hex_digit d) = true.
Proof.
  intros Hd. rewrite <- (N2Nat.id d).
  assert (Hn : (N.to_nat d < 16)%nat) by lia.
  remember (N.to_nat d) as n eqn:E. clear E Hd d.
  do 16 (destruct n as [|n]; [reflexivity |]). lia.
Qed.

Lemma length_hex_digits (k : nat) (n : N) : String.length (hex_digits k n) = k.
Proof.
  revert n. induction k as [|k IH]; intros n; [reflexivity |].
  cbn [hex_digits]. rewrite length_append, IH. simpl. lia.
Qed.

Lemma hex_digits_lower (k : nat) (n : N) :
  all_chars is_lower_hex (hex_digits k n) = true.
Proof.
  revert n. induction k as [|k IH]; intros n; [reflexivity |].
  cbn [hex_digits]. rewrite all_chars_append, IH. cbn [all_chars andb].
  rewrite hex_digit_lower; [reflexivity |]. apply N.mod_lt. discriminate.
Qed.

Lemma hex_not_stop (n : N) : hex n <> "__stop__".
Proof.
  intros Heq. pose proof (length_hex_digits 32 n) as Hlen.
  unfold hex in Heq. rewrite Heq in Hlen. discriminate Hlen.
Qed.

Lemma create_job_registered (w : World) files wm fmt td md (app : App) :
  get_job (queue (snd (create_job w files wm fmt td md app)))
          (id (fst (create_job w files wm fmt td md app)))
  = Some (fst (create_job w files wm fmt td md app)).
Proof. unfold get_job. cbn. apply lookup_insert_eq. Qed.

(** ** The entries of the log *)

Lemma uint_stamp_chars (d : Decimal.uint) :
  all_chars stamp_char (NilEmpty.string_of_uint d) = true.
Proof. induction d; cbn [NilEmpty.string_of_uint all_chars]; auto. Qed.

Lemma str_int_stamp_chars (n : Z) : all_chars stamp_char (str_int n) = true.
Proof.
  unfold str_int.
  assert (H : forall d, all_chars stamp_char (NilZero.string_of_uint d) = true).
  { intros d. destruct d; try reflexivity; apply uint_stamp_chars. }
  destruct (Z.to_int n) as [d|d]; cbn [NilZero.string_of_int all_chars].
  - apply H.
  - now rewrite H.
Qed.

Lemma two_digits_stamp_chars (n : Z) : all_chars stamp_char (two_digits n) = true.
Proof.
  unfold two_digits. rewrite all_chars_append, str_int_stamp_chars.
  now destruct (n <? 10)%Z.
Qed.

Lemma strftime_stamp_chars (t : struct_time) :
  all_chars stamp_char (strftime t) = true.
Proof.
  unfold strftime.
  rewrite !all_chars_append, str_int_stamp_chars, !two_digits_stamp_chars.
  reflexivity.
Qed.

Lemma entry_message_entry (stamp message : string) :
  all_chars stamp_char stamp = true ->
  entry_message ("[" +:+ stamp +:+ "] " +:+ message) = message.
Proof.
  intros Hstamp. change ("[" +:+ stamp +:+ "] " +:+ message)
    with (String "[" (stamp +:+ String "]" (String " " message))).
  cbn [entry_message]. change (Ascii.eqb "[" "]") with false. cbv iota.
  induction stamp as [|c stamp IH]; [reflexivity |].
  cbn [all_chars] in Hstamp. apply andb_true_iff in Hstamp.
  destruct Hstamp as [Hc Hrest].
  cbn [String.append entry_message].
  destruct (Ascii.eqb_spec c "]") as [->|_]; [discriminate Hc | exact (IH Hrest)].
Qed.

Lemma messages_append_log (w : World) (n : nat) (message : string) (j : Job) :
  messages (log (models.append_log (strftime_at w n) message j))
  = messages (log j) ++ [message].
Proof.
  cbn [models.append_log log]. unfold messages. rewrite map_app. cbn [map].
  unfold strftime_at. now rewrite entry_message_entry by apply strftime_stamp_chars.
Qed.

Lemma create_job_as_created (w : World) files wm fmt td md (app : App) :
  as_created (fst (create_job w files wm fmt td md app)).
Proof.
  repeat split; try reflexivity.
  exact (messages_append_log w _ _ _).
Qed.

(** C9: the identifier of a job the queue creates is 32 lower-case
    hexadecimal digits, so it is never the retire token [__stop__]: the
    tokens [_resize_workers] and [shutdown] post are all [__stop__] and
    none is the identifier of a created job; a worker that takes a job
    identifier from the queue goes round its loop again, and leaves it on
    the token; creating a job leaves nothing registered under the token. *)
Theorem job_id_never_retire_token (w : World) (files : list string)
    (wm : schemas.WatermarkSettingsIn) (fmt : option string) (td : string)
    (md : option (gmap string string)) (app other : App) :
  let created := create_job w files wm fmt td md app in
  let job_id := id (fst created) in
  String.length job_id = 32%nat
  /\ all_chars is_lower_hex job_id = true
  /\ job_id <> "__stop__"
  /\ fst (_worker_turn w (Some job_id) other) = Continue
  /\ fst (_worker_turn w (Some "__stop__") other) = Break
  /\ (exists n, _queue (_resize_workers (queue other))
                = _queue (queue other) ++ repeat "__stop__" n)
  /\ _queue (shutdown (queue other))
     = _queue (queue other) ++ repeat "__stop__" (List.length (_workers (queue other)))
  /\ (get_job (queue app) "__stop__" = None ->
      get_job (queue (snd created)) "__stop__" = None).
Proof.
  intros created job_id.
  assert (Hid : job_id = hex (uuid4 (urandom w (entropy app)))) by reflexivity.
  assert (Hne : job_id <> "__stop__") by (rewrite Hid; apply hex_not_stop).
  split; [rewrite Hid; apply length_hex_digits |].
  split; [rewrite Hid; apply hex_digits_lower |].
  split; [exact Hne |].
  split.
  { unfold _worker_turn. destruct (String.eqb_spec job_id "__stop__") as [Heq|_].
    - contradiction.
    - now destruct (get_job (queue other) job_id). }
  split; [reflexivity |].
  split.
  { unfold _resize_workers.
    destruct (_ <? _)%Z; [exists 0%nat; cbn; now rewrite app_nil_r |].
    destruct (_ <? _)%Z; [eexists; reflexivity |].
    exists 0%nat. cbn. now rewrite app_nil_r. }
  split; [reflexivity |].
  intros Hfree. unfold get_job in *. subst created. cbn.
  rewrite lookup_insert_ne; [exact Hfree |].
  fold job_id in Hne. exact Hne.
Qed.

Lemma job_id_never_retire_token_witness :
  get_job (queue samples.app) "__stop__" = None
  /\ id (fst (create_job samples.world ["in/a.mp4"] samples.text_payload None
                "cpu" None samples.app))
     = "00000000000040008000000000001eef"
  /\ get_job (queue (snd (create_job samples.world ["in/a.mp4"]
                            samples.text_payload None "cpu" None samples.app)))
             "__stop__" = None.
Proof.
  split; [reflexivity |]. split; [reflexivity |].
  apply (job_id_never_retire_token samples.world ["in/a.mp4"] samples.text_payload
           None "cpu" None samples.app samples.app).
  reflexivity.
Defined.

(** C10: [create_job] takes any target-device selector and returns a job:
    a selector that is none of cpu, intel and nvidia, and a selector other
    than cpu while [allow_gpu] is off, are stored as cpu; any other selector
    is stored as given.  The job registered is the job returned, and the
    [POST /jobs] handler, which applies the second rule itself before the
    call, registers a job under the same rule. *)
Theorem create_job_coerces_target_device (w : World) (files : list string)
    (wm : schemas.WatermarkSettingsIn) (fmt : option string) (td : string)
    (md : option (gmap string string)) (preset : option string) (app : App) :
  let created := create_job w files wm fmt td md app in
  let posted := main.create_job w files wm fmt td preset app in
  let coerced :=
    ~ In td ["cpu"; "intel"; "nvidia"]
    \/ (td <> "cpu" /\ config.allow_gpu (ffmpeg_queue.settings app) = false) in
  (coerced -> target_device (fst created) = "cpu")
  /\ (~ coerced -> target_device (fst created) = td)
  /\ get_job (queue (snd created)) (id (fst created)) = Some (fst created)
  /\ exists job,
       get_job (queue (snd posted)) (fst posted) = Some job
       /\ (coerced -> target_device job = "cpu")
       /\ (~ coerced -> target_device job = td).
Proof.
  intros created posted coerced.
  assert (Hdev : forall allow,
    let stored :=
      (let t := if negb (existsb (String.eqb td) ["cpu"; "intel"; "nvidia"])
                then "cpu" else td in
       if negb (String.eqb t "cpu") && negb allow then "cpu" else t) in
    ((~ In td ["cpu"; "intel"; "nvidia"] \/ (td <> "cpu" /\ allow = false))
       -> stored = "cpu")
    /\ (~ (~ In td ["cpu"; "intel"; "nvidia"] \/ (td <> "cpu" /\ allow = false))
       -> stored = td)).
  { intros allow. cbn [existsb In].
    destruct (String.eqb_spec td "cpu") as [->|Hcpu]; cbn.
    { split; [reflexivity | reflexivity]. }
    destruct (String.eqb_spec td "intel") as [->|Hintel]; cbn.
    { destruct allow; cbn; split; try reflexivity.
      - intros [H|[_ H]]; [| discriminate]. exfalso. apply H. auto.
      - intros H. exfalso. apply H. right. split; [discriminate | reflexivity]. }
    destruct (String.eqb_spec td "nvidia") as [->|Hnvidia]; cbn.
    { destruct allow; cbn; split; try reflexivity.
      - intros [H|[_ H]]; [| discriminate]. exfalso. apply H. auto.
      - intros H. exfalso. apply H. right. split; [discriminate | reflexivity]. }
    split; [reflexivity |].
    intros H. exfalso. apply H. left. intros [E|[E|[E|[]]]]; congruence. }
  split; [apply (Hdev (config.allow_gpu (ffmpeg_queue.settings app))) |].
  split; [apply (Hdev (config.allow_gpu (ffmpeg_queue.settings app))) |].
  split; [apply create_job_registered |].
  subst posted. unfold main.create_job.
  set (td' := if negb (String.eqb td "cpu")
                 && negb (config.allow_gpu (ffmpeg_queue.settings app))
              then "cpu" else td).
  set (md' := Some _).
  destruct (create_job w files wm fmt td' md' app) as [job app'] eqn:Hc.
  exists job. cbn [fst snd].
  assert (Hjob : job = fst (create_job w files wm fmt td' md' app))
    by now rewrite Hc.
  assert (Happ : app' = snd (create_job w files wm fmt td' md' app))
    by now rewrite Hc.
  split; [rewrite Happ, Hjob; apply create_job_registered |].
  assert (Htd : target_device job
                = target_device (fst (create_job w files wm fmt td md app))).
  { rewrite Hjob. cbn. subst td'.
    destruct (String.eqb td "cpu") eqn:E1;
      destruct (String.eqb td "intel") eqn:E2;
      destruct (String.eqb td "nvidia") eqn:E3;
      destruct (config.allow_gpu (ffmpeg_queue.settings app));
      repeat (cbn; rewrite ?E1, ?E2, ?E3); reflexivity. }
  rewrite Htd.
  split; apply (Hdev (config.allow_gpu (ffmpeg_queue.settings app))).
Qed.

Lemma create_job_coerces_target_device_witness :
  (~ In "tpu" ["cpu"; "intel"; "nvidia"]
   /\ target_device (fst (create_job samples.world ["in/a.mp4"] samples.text_payload
                            None "tpu" None samples.app)) = "cpu")
  /\ (config.allow_gpu (ffmpeg_queue.settings samples.app) = false
      /\ target_device (fst (create_job samples.world ["in/a.mp4"] samples.text_payload
                               None "nvidia" None samples.app)) = "cpu").
Proof.
  assert (Hno : ~ In "tpu" ["cpu"; "intel"; "nvidia"]).
  { intros [E|[E|[E|[]]]]; discriminate E. }
  split; [split; [exact Hno |] | split; [reflexivity |]].
  - apply (create_job_coerces_target_device samples.world ["in/a.mp4"]
             samples.text_payload None "tpu" None None samples.app).
    left. exact Hno.
  - apply (create_job_coerces_target_device samples.world ["in/a.mp4"]
             samples.text_payload None "nvidia" None None samples.app).
    right. split; [discriminate | reflexivity].
Defined.

(** C8: a settings update whose worker count is below 1, or whose default
    output format is empty, does not pass the validators of
    [SettingsUpdate]: the request ends with the validation error and
    [update_settings] of the queue is not run, so the settings, the worker
    count of the queue, its workers and its queue are what they were. *)
Theorem invalid_settings_update_rejected (body : schemas.SettingsUpdate) (app : App) :
  (exists v, schemas.max_parallel_jobs body = Some v /\ (v < 1)%Z)
  \/ schemas.default_output_format body = Some "" ->
  (exists errors,
     errors <> []
     /\ main.update_settings body app = (Raise (ValidationError errors), app))
  /\ ffmpeg_queue.settings (snd (main.update_settings body app))
     = ffmpeg_queue.settings app
  /\ _max_parallel_jobs (queue (snd (main.update_settings body app)))
     = _max_parallel_jobs (queue app)
  /\ _workers (queue (snd (main.update_settings body app))) = _workers (queue app)
  /\ _queue (queue (snd (main.update_settings body app))) = _queue (queue app).
Proof.
  intros Hbad.
  assert (Hrej : exists errors,
             errors <> []
             /\ schemas.SettingsUpdate_validate body = Raise (ValidationError errors)).
  { unfold schemas.SettingsUpdate_validate.
    destruct Hbad as [(v & Hv & Hlt)|Hfmt].
    - rewrite Hv. cbn [schemas.validate_parallel_jobs].
      apply Z.ltb_lt in Hlt. rewrite Hlt. cbn.
      eexists. split; [| reflexivity]. discriminate.
    - rewrite Hfmt. cbn [schemas.validate_output_format truthy negb].
      destruct (schemas.validate_parallel_jobs _) as [?|[]]; cbn;
        (eexists; split; [| reflexivity]; discriminate). }
  destruct Hrej as (errors & Hne & Hrej).
  unfold main.update_settings. rewrite Hrej. cbn [snd].
  split; [exists errors; split; [exact Hne | reflexivity] |].
  repeat split; reflexivity.
Qed.

Lemma invalid_settings_update_rejected_witness :
  (exists v, schemas.max_parallel_jobs samples.zero_workers = Some v /\ (v < 1)%Z)
  /\ snd (main.update_settings samples.zero_workers samples.app) = samples.app
  /\ snd (main.update_settings samples.empty_format samples.app) = samples.app
  /\ _max_parallel_jobs (queue (snd (main.update_settings samples.zero_workers samples.app))) = 2%Z
  /\ _max_parallel_jobs (queue (snd (main.update_settings samples.three_workers samples.app))) = 3%Z.
Proof.
  assert (Hbad : exists v, schemas.max_parallel_jobs samples.zero_workers = Some v
                           /\ (v < 1)%Z).
  { exists 0%Z. split; [reflexivity | lia]. }
  split; [exact Hbad |].
  destruct (invalid_settings_update_rejected samples.zero_workers samples.app
              (or_introl Hbad)) as ((errors & _ & Hrun) & _ & Hmax & _).
  split; [now rewrite Hrun |].
  split.
  { destruct (invalid_settings_update_rejected samples.empty_format samples.app
                (or_intror eq_refl)) as ((errors' & _ & Hrun') & _).
    now rewrite Hrun'. }
  split; [rewrite Hmax; reflexivity | reflexivity].
Defined.

(** ** The run of a job *)

Lemma last_cons_default (x : Q) (l : list Q) (d d' : Q) :
  List.last (x :: l) d = List.last (x :: l) d'.
Proof.
  revert x. induction l as [|y l IH]; intros x; [reflexivity |].
  change (List.last (y :: l) d = List.last (y :: l) d'). apply IH.
Qed.

Lemma last_app_default (a b : list Q) (d : Q) :
  List.last (a ++ b) d = List.last b (List.last a d).
Proof.
  revert d. induction a as [|x a IH]; intros d; [reflexivity |].
  destruct a as [|y a].
  - destruct b as [|z b]; [reflexivity |].
    change (List.last (z :: b) d = List.last (z :: b) x).
    apply last_cons_default.
  - change (List.last ((y :: a) ++ b) d = List.last b (List.last (y :: a) d)).
    apply IH.
Qed.

Lemma Extends_refl (s : RunState) : Extends s s [] [] [].
Proof. constructor; rewrite ?app_nil_r; auto. Qed.

Lemma Extends_trans (s1 s2 s3 : RunState) m c p m' c' p' :
  Extends s1 s2 m c p -> Extends s2 s3 m' c' p' ->
  Extends s1 s3 (m ++ m') (c ++ c') (p ++ p').
Proof.
  intros [] []. constructor; try congruence.
  - rewrite last_app_default. congruence.
  - unfold texts in *. rewrite map_app, app_assoc. congruence.
  - rewrite app_assoc. congruence.
  - rewrite app_assoc. congruence.
  - lia.
Qed.

Lemma append_log_Extends (w : World) (m : Message) (s : RunState) :
  fst (append_log w m s) = Ok tt
  /\ Extends s (snd (append_log w m s)) [m] [] [].
Proof.
  split; [reflexivity |].
  constructor; try (cbn; rewrite ?app_nil_r; auto; fail).
  exact (messages_append_log w (now s) (message_text m) (job s)).
Qed.

Lemma record_launch_Extends (cmd : list string) (s : RunState) :
  Extends s (snd (record_launch cmd s)) [] [cmd] [].
Proof. constructor; cbn; rewrite ?app_nil_r; auto. Qed.

Lemma set_job_progress_Extends (p : Q) (s : RunState) :
  Extends s (snd (set_job_progress p s)) [] [] [p].
Proof. constructor; cbn; rewrite ?app_nil_r; auto. Qed.

Lemma for_each_output (w : World) (lines : list string) (s : RunState) :
  exists s',
    for_each lines (fun line => append_log w (Output line)) s = (Ok tt, s')
    /\ Extends s s' (map Output lines) [] [].
Proof.
  revert s. induction lines as [|line lines IH]; intros s.
  - exists s. split; [reflexivity | apply Extends_refl].
  - cbn [for_each map]. unfold bind. cbn [append_log].
    destruct (append_log_Extends w (Output line) s) as [_ Hone].
    cbn [append_log snd] in Hone.
    destruct (IH (tick (update_job (models.append_log (strftime_at w (now s))
                                      (message_text (Output line))) s)))
      as (s' & Hrun & Hrest).
    exists s'. split; [exact Hrun |].
    exact (Extends_trans _ _ _ _ _ _ _ _ _ Hone Hrest).
Qed.

Lemma attempt_ext (w : World) (j1 j2 : Job) (index : nat) (input_file : string) :
  watermark j1 = watermark j2 -> metadata j1 = metadata j2 ->
  target_device j1 = target_device j2 -> output_format j1 = output_format j2 ->
  output_dir j1 = output_dir j2 ->
  attempt w j1 index input_file = attempt w j2 index input_file.
Proof.
  intros Hw Hm Ht Hf Hd.
  unfold attempt, command_of, output_path_of, build_ffmpeg_command,
    build_filter_and_inputs, codec_clause.
  now rewrite Hw, Hm, Ht, Hf, Hd.
Qed.

Lemma attempt_Extends (w : World) (s s' : RunState) m c p index input_file :
  Extends s s' m c p ->
  attempt w (job s') index input_file = attempt w (job s) index input_file.
Proof. intros []. now apply attempt_ext. Qed.

Lemma transcript_Extends (w : World) (s s' : RunState) m c p index files :
  Extends s s' m c p ->
  transcript w (job s') index files = transcript w (job s) index files.
Proof.
  intros Hext. revert index. induction files as [|f files IH]; intros index.
  - reflexivity.
  - cbn [transcript]. rewrite (attempt_Extends w s s' m c p index f Hext).
    now rewrite IH.
Qed.

(** [process_input] does what [attempt] says. *)
Lemma process_input_attempt (w : World) (index : nat) (input_file : string)
    (s : RunState) :
  exists s',
    process_input w index input_file s
    = (match snd (attempt w (job s) index input_file) with
       | None => Ok tt
       | Some e => Raise e
       end, s')
    /\ Extends s s'
         (fst (fst (attempt w (job s) index input_file)))
         (snd (fst (attempt w (job s) index input_file))) [].
Proof.
  unfold process_input, attempt, command_of, output_path_of, bind.
  cbn [read_job].
  set (output_path := joinpath _ _).
  destruct (mkdir w index output_path) as [msg|].
  { exists s. split; [reflexivity | apply Extends_refl]. }
  cbn [ret lift].
  destruct (build_ffmpeg_command (job s) input_file output_path) as [cmd|e].
  2: { exists s. split; [reflexivity | apply Extends_refl]. }
  destruct (append_log_Extends w (Processing (name input_file) (name output_path)) s)
    as [_ H1].
  cbn [append_log snd] in H1. cbn [append_log].
  set (s1 := tick (update_job _ s)) in *.
  destruct (append_log_Extends w (Command (command_as_string cmd)) s1) as [_ H2].
  cbn [append_log snd] in H2.
  set (s2 := tick (update_job _ s1)) in *.
  pose proof (Extends_trans _ _ _ _ _ _ _ _ _ H1 H2) as H12. cbn [app] in H12.
  unfold _execute_ffmpeg, bind.
  destruct (popen w index cmd) as [lines return_code|msg|lines msg].
  2: { exists s2. split; [reflexivity | exact H12]. }
  all: pose proof (record_launch_Extends cmd s2) as H3;
    cbn [record_launch snd] in H3; cbn [record_launch];
    set (s3 := {| job := job s2 |}) in *;
    destruct (for_each_output w lines s3) as (s4 & Hloop & H4);
    rewrite Hloop;
    pose proof (Extends_trans _ _ _ _ _ _ _ _ _
                  (Extends_trans _ _ _ _ _ _ _ _ _ H12 H3) H4) as H1234;
    cbn [app] in H1234.
  2: { exists s4. split; [reflexivity | exact H1234]. }
  destruct (negb (return_code =? 0)%Z).
  { exists s4. split; [reflexivity | exact H1234]. }
  cbn [ret].
  destruct (append_log_Extends w (Completed (name input_file)) s4) as [_ H5].
  cbn [snd append_log] in H5.
  eexists. split; [reflexivity |].
  pose proof (Extends_trans _ _ _ _ _ _ _ _ _ H1234 H5) as Hall.
  cbn [app] in Hall. cbn [fst snd app]. exact Hall.
Qed.

Lemma transcript_ext (w : World) (j1 j2 : Job) (index : nat) (files : list string) :
  watermark j1 = watermark j2 -> metadata j1 = metadata j2 ->
  target_device j1 = target_device j2 -> output_format j1 = output_format j2 ->
  output_dir j1 = output_dir j2 ->
  transcript w j1 index files = transcript w j2 index files.
Proof.
  intros Hw Hm Ht Hf Hd. revert index.
  induction files as [|f files IH]; intros index; [reflexivity |].
  cbn [transcript]. rewrite (attempt_ext w j1 j2 index f Hw Hm Ht Hf Hd).
  now rewrite IH.
Qed.

Lemma fractions_cons (total index count : nat) :
  fractions total index (S count)
  = (inject_Z (Z.of_nat index) / inject_Z (Z.of_nat total))%Q
      :: fractions total (S index) count.
Proof. reflexivity. Qed.

(** The loop, when the inputs of [pre] succeed and the next one fails. *)
Lemma run_inputs_failure (w : World) (total : nat) (pre : list string) :
  forall (s : RunState) (index : nat) (f : string) (post : list string) (e : exn),
    (forall n g, pre !! n = Some g ->
                 input_error w (job s) (index + n) g = None) ->
    input_error w (job s) (index + List.length pre) f = Some e ->
    exists s1,
      Extends s s1
        (fst (transcript w (job s) index (pre ++ [f])))
        (snd (transcript w (job s) index (pre ++ [f])))
        (fractions total index (List.length pre))
      /\ run_inputs w total index (pre ++ f :: post) s = on_failure w e s1.
Proof.
  induction pre as [|g pre IH]; intros s index f post e Hpre Hf.
  - cbn [app List.length] in *. rewrite Nat.add_0_r in Hf.
    cbn [run_inputs transcript].
    destruct (process_input_attempt w index f s) as (s1 & Hrun & Hext).
    unfold input_error in Hf. rewrite Hrun.
    destruct (attempt w (job s) index f) as [[msgs cmds] err].
    cbn [fst snd] in *. subst err. exists s1. split; [exact Hext | reflexivity].
  - cbn [app List.length run_inputs transcript].
    destruct (process_input_attempt w index g s) as (s1 & Hrun & Hext).
    rewrite Hrun.
    pose proof (Hpre 0%nat g eq_refl) as Hg. rewrite Nat.add_0_r in Hg.
    unfold input_error in Hg.
    destruct (attempt w (job s) index g) as [[msgs cmds] err].
    cbn [fst snd] in *. subst err.
    set (p := (inject_Z (Z.of_nat index) / inject_Z (Z.of_nat total))%Q).
    pose proof (set_job_progress_Extends p s1) as Hp.
    set (s2 := snd (set_job_progress p s1)) in *.
    pose proof (Extends_trans _ _ _ _ _ _ _ _ _ Hext Hp) as H2.
    assert (Hsame : forall i h, attempt w (job s2) i h = attempt w (job s) i h).
    { intros i h. now apply (attempt_Extends w s s2 _ _ _ i h H2). }
    destruct (IH s2 (S index) f post e) as (s3 & H3 & Hloop).
    + intros n h Hn. unfold input_error. rewrite Hsame.
      replace (S index + n)%nat with (index + S n)%nat by lia.
      now apply Hpre.
    + unfold input_error. rewrite Hsame.
      replace (S index + List.length pre)%nat
        with (index + S (List.length pre))%nat by lia.
      exact Hf.
    + rewrite (transcript_Extends w s s2 _ _ _ _ _ H2) in H3.
      exists s3. split; [| exact Hloop].
      destruct (transcript w (job s) (S index) (pre ++ [f])) as [msgs' cmds'].
      cbn [fst snd] in *. rewrite fractions_cons.
      pose proof (Extends_trans _ _ _ _ _ _ _ _ _ H2 H3) as Hall.
      rewrite !app_nil_r in Hall. cbn [app] in Hall. exact Hall.
Qed.

(** The loop, when every input succeeds. *)
Lemma run_inputs_success (w : World) (total : nat) (files : list string) :
  forall (s : RunState) (index : nat),
    (forall n g, files !! n = Some g ->
                 input_error w (job s) (index + n) g = None) ->
    exists s1,
      Extends s s1
        (fst (transcript w (job s) index files))
        (snd (transcript w (job s) index files))
        (fractions total index (List.length files))
      /\ run_inputs w total index files s = on_success w s1.
Proof.
  induction files as [|g files IH]; intros s index Hall.
  - exists s. split; [apply Extends_refl | reflexivity].
  - cbn [List.length run_inputs transcript].
    destruct (process_input_attempt w index g s) as (s1 & Hrun & Hext).
    rewrite Hrun.
    pose proof (Hall 0%nat g eq_refl) as Hg. rewrite Nat.add_0_r in Hg.
    unfold input_error in Hg.
    destruct (attempt w (job s) index g) as [[msgs cmds] err].
    cbn [fst snd] in *. subst err.
    set (p := (inject_Z (Z.of_nat index) / inject_Z (Z.of_nat total))%Q).
    pose proof (set_job_progress_Extends p s1) as Hp.
    set (s2 := snd (set_job_progress p s1)) in *.
    pose proof (Extends_trans _ _ _ _ _ _ _ _ _ Hext Hp) as H2.
    assert (Hsame : forall i h, attempt w (job s2) i h = attempt w (job s) i h).
    { intros i h. now apply (attempt_Extends w s s2 _ _ _ i h H2). }
    destruct (IH s2 (S index)) as (s3 & H3 & Hloop).
    + intros n h Hn. unfold input_error. rewrite Hsame.
      replace (S index + n)%nat with (index + S n)%nat by lia.
      now apply Hall.
    + rewrite (transcript_Extends w s s2 _ _ _ _ _ H2) in H3.
      exists s3. split; [| exact Hloop].
      destruct (transcript w (job s) (S index) files) as [msgs' cmds'].
      cbn [fst snd] in *. rewrite fractions_cons.
      pose proof (Extends_trans _ _ _ _ _ _ _ _ _ H2 H3) as Hfin.
      rewrite !app_nil_r in Hfin. cbn [app] in Hfin. exact Hfin.
Qed.

Lemma loop_texts (msgs : list Message) :
  forallb in_loop msgs = true ->
  List.filter is_failed (texts msgs) = List.filter is_failed (outputs msgs)
  /\ List.filter is_finished (texts msgs) = List.filter is_finished (outputs msgs).
Proof.
  induction msgs as [|m msgs IH]; intros Hloop; [split; reflexivity |].
  cbn [forallb] in Hloop. apply andb_true_iff in Hloop. destruct Hloop as [Hm Hrest].
  destruct (IH Hrest) as [IH1 IH2].
  unfold texts, outputs in *.
  destruct m; try discriminate Hm; cbn [map flat_map app].
  - change (is_failed (message_text (Processing input_name output_name))) with false.
    change (is_finished (message_text (Processing input_name output_name))) with false.
    split; assumption.
  - change (is_failed (message_text (Command rendered))) with false.
    change (is_finished (message_text (Command rendered))) with false.
    split; assumption.
  - cbn [List.filter message_text].
    destruct (is_failed line), (is_finished line); split; congruence.
  - change (is_failed (message_text (Completed input_name))) with false.
    change (is_finished (message_text (Completed input_name))) with false.
    split; assumption.
Qed.

Lemma in_loop_outputs (lines : list string) :
  forallb in_loop (map Output lines) = true.
Proof. induction lines as [|l lines IH]; [reflexivity | exact IH]. Qed.

Lemma attempt_loop (w : World) (j : Job) (index : nat) (f : string) :
  forallb in_loop (fst (fst (attempt w j index f))) = true
  /\ (List.length (snd (fst (attempt w j index f))) <= 1)%nat.
Proof.
  unfold attempt.
  destruct (mkdir w index _); [cbn; auto |].
  destruct (command_of j f) as [cmd|e]; [| cbn; auto].
  destruct (popen w index cmd) as [lines rc|msg|lines msg]; [| cbn; auto |].
  - destruct (negb (rc =? 0)%Z); cbn [fst snd forallb app in_loop andb];
      rewrite ?forallb_app, in_loop_outputs; cbn; auto.
  - cbn [fst snd forallb app in_loop andb]. rewrite in_loop_outputs. cbn. auto.
Qed.

Lemma transcript_loop (w : World) (j : Job) (files : list string) :
  forall index,
    forallb in_loop (fst (transcript w j index files)) = true
    /\ (List.length (snd (transcript w j index files)) <= List.length files)%nat.
Proof.
  induction files as [|f files IH]; intros index; [cbn; auto |].
  cbn [transcript].
  destruct (attempt_loop w j index f) as (H1 & H2).
  destruct (attempt w j index f) as [[msgs cmds] err]. cbn [fst snd] in *.
  destruct err as [e|].
  - cbn [fst snd List.length]. split; auto. lia.
  - destruct (IH (S index)) as (I1 & I2).
    destruct (transcript w j (S index) files) as [msgs' cmds'].
    cbn [fst snd List.length] in *.
    rewrite forallb_app, H1, I1, length_app. split; auto. lia.
Qed.

(** The failure and completion entries of a log that is the creation and
    start entries, the entries of the loop and a last entry. *)
Lemma count_entries (n : nat) (msgs : list Message) (final : Message) :
  forallb in_loop msgs = true ->
  List.filter is_failed (texts ([Created; Starting n] ++ msgs ++ [final]))
  = List.filter is_failed (outputs msgs)
      ++ List.filter is_failed [message_text final]
  /\ List.filter is_finished (texts ([Created; Starting n] ++ msgs ++ [final]))
     = List.filter is_finished (outputs msgs)
         ++ List.filter is_finished [message_text final].
Proof.
  intros Hloop. destruct (loop_texts msgs Hloop) as [H1 H2].
  unfold texts in *. cbn [app map].
  change (is_failed (message_text Created)) with false.
  change (is_finished (message_text Created)) with false.
  cbn [List.filter].
  change (is_failed (message_text (Starting n))) with false.
  change (is_finished (message_text (Starting n))) with false.
  cbv iota. rewrite map_app, !List.filter_app, H1, H2. split; reflexivity.
Qed.

Lemma attempt_commands (w : World) (j : Job) (index : nat) (f : string) :
  (snd (fst (attempt w j index f)) = []
   \/ exists cmd, command_of j f = Ok cmd /\ snd (fst (attempt w j index f)) = [cmd])
  /\ (input_error w j index f = None ->
      exists cmd, command_of j f = Ok cmd /\ snd (fst (attempt w j index f)) = [cmd]).
Proof.
  unfold input_error, attempt.
  destruct (mkdir w index _); [cbn; split; [auto | discriminate] |].
  destruct (command_of j f) as [cmd|e]; [| cbn; split; [auto | discriminate]].
  destruct (popen w index cmd) as [lines rc|msg|lines msg];
    [| cbn; split; [auto | discriminate] | cbn; split; [eauto | discriminate]].
  destruct (negb (rc =? 0)%Z); cbn; split; eauto; discriminate.
Qed.

Lemma transcript_success_commands (w : World) (j : Job) (files : list string) :
  forall index,
    (forall n g, files !! n = Some g -> input_error w j (index + n) g = None) ->
    map Ok (snd (transcript w j index files)) = map (command_of j) files.
Proof.
  induction files as [|f files IH]; intros index Hall; [reflexivity |].
  cbn [transcript map].
  pose proof (Hall 0%nat f eq_refl) as Hf. rewrite Nat.add_0_r in Hf.
  destruct (proj2 (attempt_commands w j index f) Hf) as (cmd & Hcmd & Hone).
  unfold input_error in Hf.
  destruct (attempt w j index f) as [[msgs cmds] err]. cbn [fst snd] in *.
  subst err cmds.
  specialize (IH (S index)).
  destruct (transcript w j (S index) files) as [msgs' cmds'].
  cbn [fst snd app map] in *. rewrite Hcmd. f_equal. apply IH.
  intros n g Hn. replace (S index + n)%nat with (index + S n)%nat by lia.
  now apply Hall.
Qed.

Lemma transcript_prefix (w : World) (j : Job) (pre rest : list string) :
  forall index,
    (forall n g, pre !! n = Some g -> input_error w j (index + n) g = None) ->
    transcript w j index (pre ++ rest)
    = (fst (transcript w j index pre)
         ++ fst (transcript w j (index + List.length pre) rest),
       snd (transcript w j index pre)
         ++ snd (transcript w j (index + List.length pre) rest)).
Proof.
  induction pre as [|g pre IH]; intros index Hall.
  - cbn [app List.length transcript fst snd]. rewrite Nat.add_0_r.
    now destruct (transcript w j index rest).
  - cbn [app List.length transcript].
    pose proof (Hall 0%nat g eq_refl) as Hg. rewrite Nat.add_0_r in Hg.
    unfold input_error in Hg.
    destruct (attempt w j index g) as [[msgs cmds] err]. cbn [fst snd] in *.
    subst err. rewrite (IH (S index)).
    + replace (S index + List.length pre)%nat
        with (index + S (List.length pre))%nat by lia.
      destruct (transcript w j (S index) pre) as [m1 c1].
      cbn [fst snd]. now rewrite !app_assoc.
    + intros n h Hn. replace (S index + n)%nat with (index + S n)%nat by lia.
      now apply Hall.
Qed.

Lemma last_fractions (total count : nat) :
  forall (index : nat) (d : Q),
    List.last (fractions total index count) d
    = match count with
      | O => d
      | S c => (inject_Z (Z.of_nat (index + c)) / inject_Z (Z.of_nat total))%Q
      end.
Proof.
  induction count as [|count IH]; intros index d; [reflexivity |].
  rewrite fractions_cons. destruct count as [|count].
  - cbn. now rewrite Nat.add_0_r.
  - rewrite fractions_cons.
    change (List.last (fractions total (S index) (S count)) d
            = (inject_Z (Z.of_nat (index + S count)) / inject_Z (Z.of_nat total))%Q).
    rewrite IH. now replace (S index + count)%nat with (index + S count)%nat by lia.
Qed.

Lemma fraction_le (total a b : nat) :
  (a <= b)%nat ->
  (inject_Z (Z.of_nat a) / inject_Z (Z.of_nat total)
   <= inject_Z (Z.of_nat b) / inject_Z (Z.of_nat total))%Q.
Proof.
  intros Hab. unfold Qdiv. apply Qmult_le_compat_r.
  - rewrite <- Zle_Qle. lia.
  - apply Qinv_le_0_compat. change 0%Q with (inject_Z 0). rewrite <- Zle_Qle. lia.
Qed.

Lemma fractions_nondecreasing (total count : nat) :
  forall index, nondecreasing (fractions total index count).
Proof.
  induction count as [|count IH]; intros index; [exact I |].
  rewrite fractions_cons. specialize (IH (S index)).
  destruct count as [|count]; [exact I |].
  rewrite fractions_cons in *. split; [| exact IH].
  apply fraction_le. lia.
Qed.

Lemma run_job_starts (w : World) (j : Job) (c : nat) :
  status j = QUEUED ->
  _run_job w {| job := j; now := c; progress_writes := []; launched := [] |}
  = run_inputs w (List.length (input_files j)) 1 (input_files j)
      {| job :=
           models.append_log (strftime_at w (S c))
             (message_text (Starting (List.length (input_files j))))
             (set_started_at (time_at w c) (set_status RUNNING j));
         now := S (S c); progress_writes := []; launched := [] |}.
Proof. intros Hst. unfold _run_job. cbn [job]. now rewrite Hst. Qed.


Lemma no_match_iff {A} (p : A -> bool) (l : list A) :
  List.length (List.filter p l) = 0%nat <-> forall x, In x l -> p x = false.
Proof.
  induction l as [|a l IH]; cbn [List.filter In].
  - split; [intros _ x [] | reflexivity].
  - destruct (p a) eqn:Ha.
    + split; [discriminate |]. intros H. rewrite (H a) in Ha by now left.
      discriminate Ha.
    + rewrite IH. split.
      * intros H x [<-|Hx]; [exact Ha | now apply H].
      * intros H x Hx. apply H. now right.
Qed.

Lemma messages_started (w : World) (j : Job) (c n : nat) :
  messages (log j) = texts [Created] ->
  messages (log (models.append_log (strftime_at w c) (message_text (Starting n))
                   (set_started_at (time_at w c) (set_status RUNNING j))))
  = texts [Created; Starting n].
Proof. intros Hlog. rewrite messages_append_log. cbn [log set_started_at set_status]. now rewrite Hlog. Qed.

(** C4: a job as created whose first k inputs succeed and whose next input
    fails (an error of the command builder, of the directory, of the start
    of the process or of the reading of its output, or an exit code other
    than 0) ends [FAILED] with [finished_at] set and its progress at k/n.
    Its log is the creation entry, the start entry, the entries of the first
    k+1 inputs and, last, the failure entry: nothing is logged for a later
    input.  The log keeps the lines the processes print as they are, so
    its failure entries are that one and every output line that begins
    with [Failed: ]: there is exactly one when no output line begins so.
    The processes started are those of the first k inputs, each once and in
    order, and at most the one of the failing input. *)
Theorem failed_input_fails_job (w : World) (j : Job) (c : nat)
    (pre post : list string) (f : string) (e : exn) :
  as_created j ->
  input_files j = pre ++ f :: post ->
  (forall i g, pre !! i = Some g -> input_error w j (S i) g = None) ->
  input_error w j (S (List.length pre)) f = Some e ->
  let k := List.length pre in
  let n := List.length (input_files j) in
  let s' := _run_job w {| job := j; now := c; progress_writes := []; launched := [] |} in
  let logged := fst (transcript w j 1 (pre ++ [f])) in
  status (job s') = FAILED
  /\ (exists t, finished_at (job s') = Some t)
  /\ (progress (job s') == inject_Z (Z.of_nat k) / inject_Z (Z.of_nat n))%Q
  /\ messages (log (job s'))
     = texts ([Created; Starting n] ++ logged ++ [Failed (exn_str e)])
  /\ count_failed (log (job s'))
     = S (List.length (List.filter is_failed (outputs logged)))
  /\ (count_failed (log (job s')) = 1%nat
      <-> forall line, In line (outputs logged) -> is_failed line = false)
  /\ launched s' = snd (transcript w j 1 (pre ++ [f]))
  /\ (List.length (launched s') <= S k)%nat
  /\ map Ok (firstn k (launched s')) = map (command_of j) pre
  /\ progress_writes s' = fractions n 1 k.
Proof.
  intros (Hst & Hsa & Hfa & Hpr & Hlog) Hfiles Hpre Hf k n s' logged.
  subst s'. rewrite (run_job_starts w j c Hst). fold n.
  set (s0 := {| job := _; now := S (S c) |}).
  assert (Hsame : forall i g, attempt w (job s0) i g = attempt w j i g).
  { intros i g. now apply attempt_ext. }
  destruct (run_inputs_failure w n pre s0 1 f post e) as (s1 & Hext & Hrun).
  { intros m g Hm. unfold input_error. rewrite Hsame. now apply Hpre. }
  { unfold input_error. rewrite Hsame. exact Hf. }
  rewrite (transcript_ext w (job s0) j 1 (pre ++ [f])
             eq_refl eq_refl eq_refl eq_refl eq_refl) in Hext.
  assert (Hgo : run_inputs w n 1 (input_files j) s0 = on_failure w e s1)
    by (rewrite Hfiles; exact Hrun).
  rewrite Hgo. clear Hgo Hrun.
  destruct Hext as [_ _ _ _ _ _ _ _ _ Hprog Hmsgs Hlaunch Hwrites _].
  cbn [job s0 launched progress_writes app] in Hlaunch, Hwrites.
  assert (Hlog0 : messages (log (job s0)) = texts [Created; Starting n])
    by exact (messages_started w j (S c) n Hlog).
  rewrite Hlog0 in Hmsgs. fold logged in Hmsgs.
  assert (Hfinal : messages (log (job (on_failure w e s1)))
                   = texts ([Created; Starting n] ++ logged ++ [Failed (exn_str e)])).
  { unfold on_failure, append_log. cbn [snd tick update_job job].
    rewrite messages_append_log. cbn [log set_finished_at set_status].
    rewrite Hmsgs. unfold texts. rewrite !map_app. cbn [map app].
    now rewrite <- ?app_assoc. }
  destruct (transcript_loop w j (pre ++ [f]) 1%nat) as (Hloop & Hlen).
  fold logged in Hloop.
  assert (Hcount : count_failed (log (job (on_failure w e s1)))
                   = S (List.length (List.filter is_failed (outputs logged)))).
  { unfold count_failed. rewrite Hfinal.
    rewrite (proj1 (count_entries n logged (Failed (exn_str e)) Hloop)).
    rewrite length_app. cbn. lia. }
  split; [reflexivity |].
  split; [eexists; reflexivity |].
  split.
  { change (progress (job (on_failure w e s1))) with (progress (job s1)).
    rewrite Hprog, last_fractions. subst k.
    destruct (List.length pre) as [|k'].
    - cbn [s0 job progress models.append_log set_started_at set_status].
      rewrite Hpr. unfold Qdiv. change (inject_Z (Z.of_nat 0)) with 0%Q.
      now rewrite Qmult_0_l.
    - reflexivity. }
  split; [exact Hfinal |].
  split; [exact Hcount |].
  split.
  { rewrite Hcount, <- no_match_iff. split; [intros [= H]; exact H | intros ->; reflexivity]. }
  change (launched (on_failure w e s1)) with (launched s1).
  change (progress_writes (on_failure w e s1)) with (progress_writes s1).
  rewrite Hlaunch, Hwrites.
  split; [reflexivity |].
  split; [rewrite length_app in Hlen; cbn in Hlen; fold k in Hlen; lia |].
  split; [| reflexivity].
  assert (Hpre1 : forall m g, pre !! m = Some g -> input_error w j (1 + m) g = None)
    by (intros m g Hm; now apply Hpre).
  rewrite (transcript_prefix w j pre [f] 1 Hpre1). cbn [snd].
  pose proof (transcript_success_commands w j pre 1 Hpre1) as Hcmds.
  assert (Hk : k = List.length (snd (transcript w j 1 pre))).
  { subst k. rewrite <- (length_map (command_of j) pre), <- Hcmds.
    now rewrite length_map. }
  rewrite (take_app_length' _ _ k Hk). exact Hcmds.
Qed.

Lemma failed_input_fails_job_witness :
  as_created samples.three_file_job
  /\ input_error samples.failing_world samples.three_file_job 2 "in/b.mp4"
     = Some (RuntimeError "FFmpeg exited with code 1")
  /\ let s' := _run_job samples.failing_world (samples.start samples.three_file_job) in
     status (job s') = FAILED
     /\ (progress (job s') == 1 # 3)%Q
     /\ count_failed (log (job s')) = 1%nat
     /\ List.length (launched s') = 2%nat.
Proof.
  assert (Hc : as_created samples.three_file_job) by (repeat split; reflexivity).
  assert (Hf : input_error samples.failing_world samples.three_file_job 2 "in/b.mp4"
               = Some (RuntimeError "FFmpeg exited with code 1"))
    by (vm_compute; reflexivity).
  split; [exact Hc |]. split; [exact Hf |].
  destruct (failed_input_fails_job samples.failing_world samples.three_file_job 0
              ["in/a.mp4"] ["in/c.mp4"] "in/b.mp4"
              (RuntimeError "FFmpeg exited with code 1") Hc eq_refl)
    as (Hstatus & _ & Hprogress & _ & Hcount & _ & Hlaunched & _).
  - intros [|i] g Hg; [| discriminate Hg].
    injection Hg as <-. vm_compute. reflexivity.
  - exact Hf.
  - unfold samples.start. cbv zeta.
    split; [exact Hstatus |]. split; [rewrite Hprogress; reflexivity |].
    split; [rewrite Hcount; vm_compute; reflexivity |].
    rewrite Hlaunched. vm_compute. reflexivity.
Defined.

(** C4, as it is stated, fails: a process that prints [Failed: no such
    filter] and exits with code 1 leaves two failure entries in the log,
    the line it printed and the entry of the queue. *)
Lemma failed_input_fails_job_counterexample :
  as_created samples.one_file_job
  /\ input_error samples.complaining_world samples.one_file_job 1 "in/a.mp4"
     = Some (RuntimeError "FFmpeg exited with code 1")
  /\ log (job (_run_job samples.complaining_world
                 (samples.start samples.one_file_job)))
     = ["[2024-01-01 00:00:00] Job created and queued";
        "[2024-01-01 00:00:01] Starting job with 1 file(s)";
        "[2024-01-01 00:00:02] Processing a.mp4 -> a_watermarked.mp4";
        "[2024-01-01 00:00:03] Command: ffmpeg -y -i in/a.mp4 -filter_complex 'drawtext=text=Hi\: there:fontcolor=white:fontsize=36:x=(W-w)/2:y=(H-h)/2' -c:v libx264 -preset medium -c:a copy storage/output/a_watermarked.mp4";
        "[2024-01-01 00:00:04] Failed: no such filter";
        "[2024-01-01 00:00:06] Failed: FFmpeg exited with code 1"]
  /\ count_failed (log (job (_run_job samples.complaining_world
                               (samples.start samples.one_file_job)))) = 2%nat.
Proof. repeat split; vm_compute; reflexivity. Qed.

Lemma fraction_nonneg (total a : nat) :
  (0 <= inject_Z (Z.of_nat a) / inject_Z (Z.of_nat total))%Q.
Proof.
  unfold Qdiv. apply Qmult_le_0_compat.
  - change 0%Q with (inject_Z 0). rewrite <- Zle_Qle. lia.
  - apply Qinv_le_0_compat. change 0%Q with (inject_Z 0). rewrite <- Zle_Qle. lia.
Qed.

(** C5: a job as created with at least one input, all of whose inputs
    succeed, ends [COMPLETED] with progress 1; [started_at] is the reading
    of the clock at the start and [finished_at] a later reading, so
    [started_at] is no later than [finished_at] when the clock does not run
    backwards.  Its log is the creation entry, the start entry, the entries
    of the inputs and, last, the completion entry.  The log keeps the
    lines the processes print as they are, so its completion entries are
    that one and every output line that reads [Job finished successfully]:
    there is exactly one when no output line reads so.  The processes
    started are those of the inputs, each once, in the order of submission,
    and the values the progress takes, 1/n up to n/n after 0, never
    decrease. *)
Theorem all_inputs_succeed_completes_job (w : World) (j : Job) (c : nat) :
  as_created j ->
  input_files j <> [] ->
  (forall i g, input_files j !! i = Some g -> input_error w j (S i) g = None) ->
  let n := List.length (input_files j) in
  let s' := _run_job w {| job := j; now := c; progress_writes := []; launched := [] |} in
  let logged := fst (transcript w j 1 (input_files j)) in
  status (job s') = COMPLETED
  /\ (progress (job s') == 1)%Q
  /\ (exists later,
        (c < later)%nat
        /\ started_at (job s') = Some (time_at w c)
        /\ finished_at (job s') = Some (time_at w later)
        /\ ((forall a b, (a <= b)%nat -> (time_at w a <= time_at w b)%Q) ->
            (time_at w c <= time_at w later)%Q))
  /\ messages (log (job s')) = texts ([Created; Starting n] ++ logged ++ [Finished])
  /\ count_finished (log (job s'))
     = S (List.length (List.filter is_finished (outputs logged)))
  /\ (count_finished (log (job s')) = 1%nat
      <-> forall line, In line (outputs logged) -> is_finished line = false)
  /\ map Ok (launched s') = map (command_of j) (input_files j)
  /\ progress_writes s' = fractions n 1 n
  /\ nondecreasing (progress j :: progress_writes s').
Proof.
  intros (Hst & Hsa & Hfa & Hpr & Hlog) Hne Hall n s' logged.
  subst s'. rewrite (run_job_starts w j c Hst). fold n.
  set (s0 := {| job := _; now := S (S c) |}).
  assert (Hsame : forall i g, attempt w (job s0) i g = attempt w j i g).
  { intros i g. now apply attempt_ext. }
  destruct (run_inputs_success w n (input_files j) s0 1) as (s1 & Hext & Hrun).
  { intros m g Hm. unfold input_error. rewrite Hsame. now apply Hall. }
  rewrite (transcript_ext w (job s0) j 1 (input_files j)
             eq_refl eq_refl eq_refl eq_refl eq_refl) in Hext.
  rewrite Hrun. clear Hrun. fold n in Hext.
  destruct Hext as [_ _ _ _ _ _ _ Hstart _ Hprog Hmsgs Hlaunch Hwrites Hnow].
  cbn [job s0 launched progress_writes app now] in Hlaunch, Hwrites, Hnow.
  assert (Hlog0 : messages (log (job s0)) = texts [Created; Starting n])
    by exact (messages_started w j (S c) n Hlog).
  rewrite Hlog0 in Hmsgs. fold logged in Hmsgs.
  assert (Hfinal : messages (log (job (on_success w s1)))
                   = texts ([Created; Starting n] ++ logged ++ [Finished])).
  { unfold on_success, append_log. cbn [snd tick update_job job].
    rewrite messages_append_log. cbn [log set_finished_at set_status].
    rewrite Hmsgs. unfold texts. rewrite !map_app. cbn [map app].
    now rewrite <- ?app_assoc. }
  destruct (transcript_loop w j (input_files j) 1%nat) as (Hloop & _).
  fold logged in Hloop.
  assert (Hcount : count_finished (log (job (on_success w s1)))
                   = S (List.length (List.filter is_finished (outputs logged)))).
  { unfold count_finished. rewrite Hfinal.
    rewrite (proj2 (count_entries n logged Finished Hloop)).
    rewrite length_app. cbn. lia. }
  assert (Hn : (0 < n)%nat).
  { subst n. destruct (input_files j); [contradiction | cbn; lia]. }
  split; [reflexivity |].
  split.
  { change (progress (job (on_success w s1))) with (progress (job s1)).
    rewrite Hprog, last_fractions. destruct n as [|n']; [lia |].
    change (1 + n')%nat with (S n'). apply Qmult_inv_r.
    change 0%Q with (inject_Z 0). rewrite inject_Z_injective. lia. }
  split.
  { exists (now s1). split; [lia |]. split; [| split; [reflexivity |]].
    - change (started_at (job (on_success w s1))) with (started_at (job s1)).
      rewrite Hstart. reflexivity.
    - intros Hclock. apply Hclock. lia. }
  split; [exact Hfinal |].
  split; [exact Hcount |].
  split.
  { rewrite Hcount, <- no_match_iff.
    split; [intros [= H]; exact H | intros ->; reflexivity]. }
  change (launched (on_success w s1)) with (launched s1).
  change (progress_writes (on_success w s1)) with (progress_writes s1).
  rewrite Hlaunch, Hwrites.
  split.
  { apply transcript_success_commands. intros m g Hm. now apply Hall. }
  split; [reflexivity |].
  rewrite Hpr. destruct n as [|n']; [lia |].
  pose proof (fractions_nondecreasing (S n') (S n') 1) as Hsorted.
  rewrite fractions_cons in *. split; [| exact Hsorted].
  apply fraction_nonneg.
Qed.

Lemma all_inputs_succeed_completes_job_witness :
  as_created samples.three_file_job
  /\ let s' := _run_job samples.world (samples.start samples.three_file_job) in
     status (job s') = COMPLETED
     /\ (progress (job s') == 1)%Q
     /\ count_finished (log (job s')) = 1%nat
     /\ progress_writes s' = [1 # 3; 2 # 3; 3 # 3]%Q.
Proof.
  assert (Hc : as_created samples.three_file_job) by (repeat split; reflexivity).
  split; [exact Hc |].
  destruct (all_inputs_succeed_completes_job samples.world samples.three_file_job 0 Hc)
    as (Hstatus & Hprogress & _ & _ & Hcount & _ & _ & Hwrites & _).
  - discriminate.
  - intros [|[|[|i]]] g Hg; try discriminate Hg;
      injection Hg as <-; vm_compute; reflexivity.
  - unfold samples.start. cbv zeta.
    split; [exact Hstatus |]. split; [exact Hprogress |].
    split; [rewrite Hcount; vm_compute; reflexivity |].
    rewrite Hwrites. reflexivity.
Defined.

(** C5, as it is stated, fails in two ways.  A process that prints [Job
    finished successfully] and exits with code 0 leaves two completion
    entries in the log, the line it printed and the entry of the queue.
    And when the clock is set back during the run, [finished_at] is before
    [started_at]. *)
Lemma all_inputs_succeed_completes_job_counterexample :
  as_created samples.one_file_job
  /\ input_error samples.boasting_world samples.one_file_job 1 "in/a.mp4" = None
  /\ count_finished (log (job (_run_job samples.boasting_world
                                 (samples.start samples.one_file_job)))) = 2%nat
  /\ input_error samples.backwards_world samples.one_file_job 1 "in/a.mp4" = None
  /\ started_at (job (_run_job samples.backwards_world
                        (samples.start samples.one_file_job)))
     = Some (inject_Z 1700000000)
  /\ finished_at (job (_run_job samples.backwards_world
                         (samples.start samples.one_file_job)))
     = Some (inject_Z 1699999994).
Proof. repeat split; vm_compute; reflexivity. Qed.

(** * Further properties *)

(** ** Any run of a job *)

Lemma run_job_enters (w : World) (s : RunState) :
  runnable (status (job s)) ->
  _run_job w s
  = run_inputs w (List.length (input_files (job s))) 1 (input_files (job s))
      (entered w s).
Proof.
  intros [Hc Hd]. unfold _run_job.
  destruct (status (job s)); try reflexivity; contradiction.
Qed.

Lemma run_job_guard (w : World) (s : RunState) :
  ~ runnable (status (job s)) -> _run_job w s = s.
Proof.
  intros Hno. unfold _run_job, runnable in *.
  destruct (status (job s)); try reflexivity;
    exfalso; apply Hno; split; discriminate.
Qed.

(** The loop, whatever the inputs do: [m] inputs succeed, then the loop ends
    or the next input fails. *)
Lemma run_inputs_outcome (w : World) (total : nat) (files : list string) :
  forall (s : RunState) (index : nat),
    exists s1 m,
      (m <= List.length files)%nat
      /\ Extends s s1
           (fst (transcript w (job s) index files))
           (snd (transcript w (job s) index files))
           (fractions total index m)
      /\ ((m = List.length files
           /\ run_inputs w total index files s = on_success w s1)
          \/ ((m < List.length files)%nat
              /\ exists e, run_inputs w total index files s = on_failure w e s1)).
Proof.
  induction files as [|g files IH]; intros s index.
  - exists s, 0%nat. split; [cbn; lia |]. split; [apply Extends_refl |].
    left. split; reflexivity.
  - cbn [List.length run_inputs transcript].
    destruct (process_input_attempt w index g s) as (s1 & Hrun & Hext).
    rewrite Hrun.
    destruct (attempt w (job s) index g) as [[msgs cmds] [e|]]; cbn [fst snd] in *.
    + exists s1, 0%nat. split; [lia |]. split; [exact Hext |].
      right. split; [lia | eauto].
    + set (p := (inject_Z (Z.of_nat index) / inject_Z (Z.of_nat total))%Q).
      pose proof (set_job_progress_Extends p s1) as Hp.
      set (s2 := snd (set_job_progress p s1)) in *.
      pose proof (Extends_trans _ _ _ _ _ _ _ _ _ Hext Hp) as H2.
      destruct (IH s2 (S index)) as (s3 & m & Hm & H3 & Hend).
      rewrite (transcript_Extends w s s2 _ _ _ _ _ H2) in H3.
      exists s3, (S m). split; [lia |]. split.
      * destruct (transcript w (job s) (S index) files) as [msgs' cmds'].
        cbn [fst snd] in *. rewrite fractions_cons.
        pose proof (Extends_trans _ _ _ _ _ _ _ _ _ H2 H3) as Hall.
        rewrite !app_nil_r in Hall. cbn [app] in Hall. exact Hall.
      * destruct Hend as [[-> Hok]|[Hlt Hfail]].
        -- left. split; [reflexivity | exact Hok].
        -- right. split; [lia | exact Hfail].
Qed.


(** How any run of a job ends. *)
Lemma run_job_outcome (w : World) (s : RunState) :
  runnable (status (job s)) ->
  let s' := _run_job w s in
  (status (job s') = COMPLETED \/ status (job s') = FAILED)
  /\ started_at (job s') = Some (time_at w (now s))
  /\ (exists t, finished_at (job s') = Some t)
  /\ (status (job s') = COMPLETED
      <-> last (messages (log (job s'))) = Some (message_text Finished))
  /\ (status (job s') = FAILED
      <-> exists reason,
            last (messages (log (job s'))) = Some (message_text (Failed reason))).
Proof.
  intros Hrun s'. subst s'. rewrite (run_job_enters w s Hrun).
  destruct (run_inputs_outcome w (List.length (input_files (job s)))
              (input_files (job s)) (entered w s) 1)
    as (s1 & m & _ & Hext & [[_ Hend]|[_ [e Hend]]]);
    rewrite Hend; destruct Hext as [_ _ _ _ _ _ _ Hstart _ _ _ _ _ _].
  - assert (Hlast : last (messages (log (job (on_success w s1))))
                    = Some (message_text Finished)).
    { unfold on_success, append_log. cbn [snd tick update_job job].
      rewrite messages_append_log. apply last_snoc. }
    split; [now left |]. split; [exact Hstart |]. split; [eexists; reflexivity |].
    rewrite Hlast. split; [split; reflexivity |].
    split; [discriminate | intros [r Hr]; discriminate Hr].
  - assert (Hlast : last (messages (log (job (on_failure w e s1))))
                    = Some (message_text (Failed (exn_str e)))).
    { unfold on_failure, append_log. cbn [snd tick update_job job].
      rewrite messages_append_log. apply last_snoc. }
    split; [now right |]. split; [exact Hstart |]. split; [eexists; reflexivity |].
    rewrite Hlast. split; [split; discriminate |].
    split; [eauto | reflexivity].
Qed.

(** X1: a job a worker runs (any status but cancelled and completed) always
    leaves the run completed or failed, whatever the processes do, with
    [started_at] the first reading of the clock and [finished_at] set; it is
    completed exactly when the last entry of its log is the completion
    entry, and failed exactly when it is a failure entry. *)
Theorem run_job_ends_terminal (w : World) (s : RunState) :
  runnable (status (job s)) ->
  let s' := _run_job w s in
  (status (job s') = COMPLETED \/ status (job s') = FAILED)
  /\ started_at (job s') = Some (time_at w (now s))
  /\ (exists t, finished_at (job s') = Some t)
  /\ (status (job s') = COMPLETED
      <-> last (messages (log (job s'))) = Some (message_text Finished))
  /\ (status (job s') = FAILED
      <-> exists reason,
            last (messages (log (job s'))) = Some (message_text (Failed reason))).
Proof. exact (run_job_outcome w s). Qed.

Lemma run_job_ends_terminal_witness :
  runnable (status (job (samples.start samples.three_file_job)))
  /\ status (job (_run_job samples.failing_world
                    (samples.start samples.three_file_job))) = FAILED
  /\ last (messages (log (job (_run_job samples.failing_world
                                 (samples.start samples.three_file_job)))))
     = Some "Failed: FFmpeg exited with code 1".
Proof.
  assert (Hrun : runnable (status (job (samples.start samples.three_file_job))))
    by (split; discriminate).
  split; [exact Hrun |].
  destruct (run_job_ends_terminal samples.failing_world
              (samples.start samples.three_file_job) Hrun)
    as (_ & _ & _ & _ & Hfailed).
  assert (Hlast : last (messages (log (job (_run_job samples.failing_world
                                             (samples.start samples.three_file_job)))))
                  = Some "Failed: FFmpeg exited with code 1")
    by (vm_compute; reflexivity).
  split; [| exact Hlast].
  apply Hfailed. eexists. exact Hlast.
Defined.

Lemma Grows_refl (s : RunState) : Grows s s.
Proof. constructor; auto. exists []. now rewrite app_nil_r. Qed.

Lemma Grows_trans (s1 s2 s3 : RunState) : Grows s1 s2 -> Grows s2 s3 -> Grows s1 s3.
Proof.
  intros [? ? ? ? ? ? ? ? [a Ha] ?] [? ? ? ? ? ? ? ? [b Hb] ?].
  constructor; try congruence; [| lia].
  exists (a ++ b). rewrite Hb, Ha. now rewrite app_assoc.
Qed.

Lemma append_log_Grows (w : World) (m : Message) (s : RunState) :
  Grows s (snd (append_log w m s)).
Proof. constructor; cbn; auto. eexists. reflexivity. Qed.

Lemma for_each_output_Grows (w : World) (lines : list string) :
  forall s, Grows s (snd (for_each lines (fun line => append_log w (Output line)) s)).
Proof.
  induction lines as [|line lines IH]; intros s; [apply Grows_refl |].
  cbn [for_each]. unfold bind. cbn [append_log].
  eapply Grows_trans; [apply (append_log_Grows w (Output line) s) |].
  apply IH.
Qed.

Lemma process_input_Grows (w : World) (index : nat) (input_file : string)
    (s : RunState) :
  Grows s (snd (process_input w index input_file s)).
Proof.
  unfold process_input, bind. cbn [read_job].
  destruct (mkdir w index _); [apply Grows_refl |].
  cbn [ret lift].
  destruct (build_ffmpeg_command (job s) input_file _) as [cmd|e];
    [| apply Grows_refl].
  cbn [append_log].
  pose proof (append_log_Grows w (Processing (name input_file)
                (name (joinpath (output_dir (job s))
                         (stem input_file +:+ "_watermarked." +:+ output_format (job s)))))
                s) as H1.
  cbn [append_log snd] in H1. set (s1 := tick (update_job _ s)) in *.
  pose proof (append_log_Grows w (Command (command_as_string cmd)) s1) as H2.
  cbn [append_log snd] in H2. set (s2 := tick (update_job _ s1)) in *.
  pose proof (Grows_trans _ _ _ H1 H2) as H12.
  unfold _execute_ffmpeg, bind.
  destruct (popen w index cmd) as [lines rc|msg|lines msg]; [| exact H12 |].
  all: cbn [record_launch];
    set (s3 := {| job := job s2 |});
    assert (H3 : Grows s2 s3)
      by (constructor; cbn; auto; exists []; now rewrite app_nil_r);
    pose proof (for_each_output_Grows w lines s3) as H4;
    destruct (for_each_output w lines s3) as (s4 & Hloop & _);
    rewrite Hloop in *; cbn [snd] in H4;
    pose proof (Grows_trans _ _ _ (Grows_trans _ _ _ H12 H3) H4) as H1234.
  2: exact H1234.
  destruct (negb (rc =? 0)%Z); [exact H1234 |].
  cbn [ret append_log snd].
  eapply Grows_trans; [exact H1234 |].
  apply (append_log_Grows w (Completed (name input_file)) s4).
Qed.

Lemma on_failure_Grows (w : World) (e : exn) (s : RunState) :
  Grows s (on_failure w e s).
Proof. constructor; cbn; auto. eexists. reflexivity. Qed.

Lemma on_success_Grows (w : World) (s : RunState) : Grows s (on_success w s).
Proof. constructor; cbn; auto. eexists. reflexivity. Qed.

Lemma run_inputs_Grows (w : World) (total : nat) (files : list string) :
  forall s index, Grows s (run_inputs w total index files s).
Proof.
  induction files as [|g files IH]; intros s index; [apply on_success_Grows |].
  cbn [run_inputs].
  pose proof (process_input_Grows w index g s) as Hg.
  destruct (process_input w index g s) as [[[]|e] s1]; cbn [snd] in Hg.
  - eapply Grows_trans; [exact Hg |].
    eapply Grows_trans; [| apply IH].
    constructor; cbn; auto. exists []. now rewrite app_nil_r.
  - eapply Grows_trans; [exact Hg | apply on_failure_Grows].
Qed.

Lemma entered_Grows (w : World) (s : RunState) : Grows s (entered w s).
Proof. constructor; cbn; auto. eexists. reflexivity. Qed.

Lemma run_job_Grows (w : World) (s : RunState) : Grows s (_run_job w s).
Proof.
  unfold _run_job.
  destruct (status (job s));
    try apply Grows_refl;
    (eapply Grows_trans; [apply (entered_Grows w s) | apply run_inputs_Grows]).
Qed.

Lemma run_job_log_starts (w : World) (s : RunState) :
  runnable (status (job s)) ->
  (exists added,
     log (job (_run_job w s))
     = log (job s)
         ++ ("[" +:+ strftime_at w (S (now s)) +:+ "] "
               +:+ message_text (Starting (List.length (input_files (job s)))))
         :: added)
  /\ (now s < now (_run_job w s))%nat.
Proof.
  intros Hrun. rewrite (run_job_enters w s Hrun).
  destruct (run_inputs_Grows w (List.length (input_files (job s)))
              (input_files (job s)) (entered w s) 1)
    as [_ _ _ _ _ _ _ _ [added Hlog] Hnow].
  cbn [entered job now models.append_log log set_started_at set_status] in Hlog, Hnow.
  split; [| lia].
  exists added. rewrite Hlog, <- app_assoc. reflexivity.
Qed.

Lemma run_job_status (w : World) (s : RunState) :
  runnable (status (job s)) ->
  status (job (_run_job w s)) = COMPLETED \/ status (job (_run_job w s)) = FAILED.
Proof.
  intros Hrun. rewrite (run_job_enters w s Hrun).
  destruct (run_inputs_outcome w (List.length (input_files (job s)))
              (input_files (job s)) (entered w s) 1)
    as (s1 & m & _ & _ & [[_ ->]|[_ [e ->]]]); [now left | now right].
Qed.

(** X2: whatever its status and whatever the processes do, a run leaves the
    job's inputs, watermark, output format and directory, target device,
    identifier, creation time and metadata as they were, and its log only
    grows: the entries it had come first, unchanged, and the clock is only
    read forward. *)
Theorem run_job_keeps_job_and_log (w : World) (s : RunState) :
  let s' := _run_job w s in
  input_files (job s') = input_files (job s)
  /\ watermark (job s') = watermark (job s)
  /\ output_format (job s') = output_format (job s)
  /\ output_dir (job s') = output_dir (job s)
  /\ target_device (job s') = target_device (job s)
  /\ id (job s') = id (job s)
  /\ created_at (job s') = created_at (job s)
  /\ metadata (job s') = metadata (job s)
  /\ (exists added, log (job s') = log (job s) ++ added)
  /\ (now s <= now s')%nat.
Proof.
  destruct (run_job_Grows w s). repeat split; assumption.
Qed.

Lemma fraction_le_1 (total a : nat) :
  (a <= total)%nat ->
  (inject_Z (Z.of_nat a) / inject_Z (Z.of_nat total) <= 1)%Q.
Proof.
  intros Hle. destruct total as [|t].
  - replace a with 0%nat by lia. cbn. discriminate.
  - apply Qle_shift_div_r.
    + change 0%Q with (inject_Z 0). rewrite <- Zlt_Qlt. lia.
    + rewrite Qmult_1_l. rewrite <- Zle_Qle. lia.
Qed.

(** X3: a run keeps the progress within [0,1] if it was, whatever the
    processes do.  The values it assigns are 1/n, 2/n, ... up to m/n for
    some m no more than the number n of inputs, never decreasing, and the
    progress it leaves is the last of them, or the old progress if no input
    succeeded. *)
Theorem run_job_progress_bounded (w : World) (s : RunState) :
  (0 <= progress (job s))%Q -> (progress (job s) <= 1)%Q ->
  let s' := _run_job w s in
  let n := List.length (input_files (job s)) in
  (0 <= progress (job s'))%Q /\ (progress (job s') <= 1)%Q
  /\ exists m,
       (m <= n)%nat
       /\ progress_writes s' = progress_writes s ++ fractions n 1 m
       /\ nondecreasing (fractions n 1 m)
       /\ progress (job s') = List.last (fractions n 1 m) (progress (job s)).
Proof.
  intros H0 H1 s' n.
  assert (Hm : exists m,
             (m <= n)%nat
             /\ progress_writes s' = progress_writes s ++ fractions n 1 m
             /\ progress (job s') = List.last (fractions n 1 m) (progress (job s))).
  { subst s'. unfold _run_job.
    assert (Hguard : exists m,
               (m <= n)%nat
               /\ progress_writes s = progress_writes s ++ fractions n 1 m
               /\ progress (job s) = List.last (fractions n 1 m) (progress (job s))).
    { exists 0%nat. cbn. rewrite app_nil_r. repeat split; auto. lia. }
    assert (Hloop : exists m,
               (m <= n)%nat
               /\ progress_writes (run_inputs w n 1 (input_files (job s)) (entered w s))
                  = progress_writes s ++ fractions n 1 m
               /\ progress (job (run_inputs w n 1 (input_files (job s)) (entered w s)))
                  = List.last (fractions n 1 m) (progress (job s))).
    { destruct (run_inputs_outcome w n (input_files (job s)) (entered w s) 1)
        as (s1 & m & Hle & Hext & Hend).
      exists m. split; [exact Hle |].
      destruct Hext as [_ _ _ _ _ _ _ _ _ Hprog _ _ Hwrites _].
      destruct Hend as [[_ ->]|[_ [e ->]]]; split; assumption. }
    destruct (status (job s)); assumption. }
  destruct Hm as (m & Hle & Hwrites & Hprog).
  assert (Hbounds : (0 <= progress (job s'))%Q /\ (progress (job s') <= 1)%Q).
  { rewrite Hprog, last_fractions. destruct m as [|m']; [split; assumption |].
    split; [apply fraction_nonneg | apply fraction_le_1; lia]. }
  split; [apply Hbounds |]. split; [apply Hbounds |].
  exists m. repeat split; try assumption. apply fractions_nondecreasing.
Qed.

Lemma run_job_progress_bounded_witness :
  (0 <= progress (job (samples.start samples.three_file_job)))%Q
  /\ (progress (job (_run_job samples.failing_world
                       (samples.start samples.three_file_job))) <= 1)%Q
  /\ progress_writes (_run_job samples.failing_world
                        (samples.start samples.three_file_job)) = [1 # 3]%Q.
Proof.
  assert (H0 : (0 <= progress (job (samples.start samples.three_file_job)))%Q)
    by discriminate.
  assert (H1 : (progress (job (samples.start samples.three_file_job)) <= 1)%Q)
    by discriminate.
  split; [exact H0 |]. split; [| vm_compute; reflexivity].
  exact (proj1 (proj2 (run_job_progress_bounded samples.failing_world
                         (samples.start samples.three_file_job) H0 H1))).
Defined.

Lemma transcript_commands_prefix (w : World) (j : Job) (files : list string) :
  forall index,
    map Ok (snd (transcript w j index files))
    = map (command_of j)
          (firstn (List.length (snd (transcript w j index files))) files).
Proof.
  induction files as [|f files IH]; intros index; [reflexivity |].
  cbn [transcript].
  destruct (attempt_commands w j index f) as [Hcmds Hok].
  unfold input_error in Hok.
  destruct (attempt w j index f) as [[msgs cmds] [e|]]; cbn [fst snd] in *.
  - destruct Hcmds as [->|(cmd & Hcmd & ->)]; [reflexivity |].
    cbn. now rewrite Hcmd.
  - destruct (Hok eq_refl) as (cmd & Hcmd & ->).
    specialize (IH (S index)).
    destruct (transcript w j (S index) files) as [msgs' cmds'].
    cbn [fst snd app List.length firstn map] in *. now rewrite Hcmd, IH.
Qed.

Lemma run_job_launched (w : World) (s : RunState) :
  exists started,
    launched (_run_job w s) = launched s ++ started
    /\ (List.length started <= List.length (input_files (job s)))%nat
    /\ map Ok started
       = map (command_of (job s))
             (firstn (List.length started) (input_files (job s))).
Proof.
  unfold _run_job.
  assert (Hguard : exists started,
             launched s = launched s ++ started
             /\ (List.length started <= List.length (input_files (job s)))%nat
             /\ map Ok started
                = map (command_of (job s))
                      (firstn (List.length started) (input_files (job s)))).
  { exists []. rewrite app_nil_r. repeat split; auto. cbn. lia. }
  assert (Hloop : exists started,
             launched (run_inputs w (List.length (input_files (job s))) 1
                         (input_files (job s)) (entered w s))
             = launched s ++ started
             /\ (List.length started <= List.length (input_files (job s)))%nat
             /\ map Ok started
                = map (command_of (job s))
                      (firstn (List.length started) (input_files (job s)))).
  { destruct (run_inputs_outcome w (List.length (input_files (job s)))
                (input_files (job s)) (entered w s) 1)
      as (s1 & m & _ & Hext & Hend).
    rewrite (transcript_ext w (job (entered w s)) (job s) 1 (input_files (job s))
               eq_refl eq_refl eq_refl eq_refl eq_refl) in Hext.
    exists (snd (transcript w (job s) 1 (input_files (job s)))).
    destruct Hext as [_ _ _ _ _ _ _ _ _ _ _ Hlaunch _ _].
    split; [destruct Hend as [[_ ->]|[_ [e ->]]]; exact Hlaunch |].
    split; [| apply transcript_commands_prefix].
    exact (proj2 (transcript_loop w (job s) (input_files (job s)) 1)). }
  destruct (status (job s)); assumption.
Qed.

(** X4: whatever the processes do, the commands a run starts processes with
    are the commands of the first inputs of the job, one for each and in
    the order of the inputs: no input is skipped before a later one is
    started, none is started twice, and there are no more processes than
    inputs. *)
Theorem run_job_starts_inputs_in_order (w : World) (s : RunState) :
  let s' := _run_job w s in
  exists started,
    launched s' = launched s ++ started
    /\ (List.length started <= List.length (input_files (job s)))%nat
    /\ map Ok started
       = map (command_of (job s))
             (firstn (List.length started) (input_files (job s))).
Proof. exact (run_job_launched w s). Qed.

(** X5: when the command cannot be built for a job (its filter raises), a
    run of the job with at least one input fails at the first input: no
    process is started, the progress is not touched, and the log gains the
    start entry and one failure entry, which carries the text of the
    exception unless making the output directory failed first. *)
Theorem build_error_fails_job_before_any_process (w : World) (s : RunState)
    (f : string) (rest : list string) (e : exn) :
  runnable (status (job s)) ->
  input_files (job s) = f :: rest ->
  build_filter_and_inputs (job s) = Raise e ->
  let s' := _run_job w s in
  status (job s') = FAILED
  /\ launched s' = launched s
  /\ progress_writes s' = progress_writes s
  /\ progress (job s') = progress (job s)
  /\ exists reason,
       messages (log (job s'))
       = messages (log (job s))
           ++ texts [Starting (S (List.length rest)); Failed reason]
       /\ (mkdir w 1 (output_path_of (job s) f) = None -> reason = exn_str e).
Proof.
  intros Hrun Hfiles Hbuild s'. subst s'.
  rewrite (run_job_enters w s Hrun), Hfiles.
  assert (Hattempt : exists e',
             attempt w (job (entered w s)) 1 f = ([], [], Some e')
             /\ (mkdir w 1 (output_path_of (job s) f) = None -> e' = e)).
  { rewrite (attempt_ext w (job (entered w s)) (job s) 1 f
               eq_refl eq_refl eq_refl eq_refl eq_refl).
    unfold attempt, command_of, build_ffmpeg_command. rewrite Hbuild.
    destruct (mkdir w 1 (output_path_of (job s) f)) as [msg|].
    - eexists. split; [reflexivity | discriminate].
    - eexists. split; [reflexivity | reflexivity]. }
  destruct Hattempt as (e' & Hattempt & Hreason).
  destruct (run_inputs_failure w (List.length (f :: rest)) [] (entered w s) 1 f rest e')
    as (s1 & Hext & Hend).
  { intros n g Hn. discriminate Hn. }
  { unfold input_error. cbn [List.length Nat.add]. now rewrite Hattempt. }
  cbn [app] in Hend. rewrite Hend.
  cbn [app transcript] in Hext. rewrite Hattempt in Hext. cbn [fst snd] in Hext.
  destruct Hext as [_ _ _ _ _ _ _ _ _ Hprog Hmsgs Hlaunch Hwrites _].
  rewrite app_nil_r in Hmsgs, Hlaunch, Hwrites. cbn [fractions seq map List.length] in *.
  split; [reflexivity |]. split; [exact Hlaunch |]. split; [exact Hwrites |].
  split; [exact Hprog |].
  exists (exn_str e'). split.
  - unfold on_failure, append_log. cbn [snd tick update_job job].
    rewrite messages_append_log. cbn [log set_finished_at set_status].
    rewrite Hmsgs. unfold entered. cbn [job]. rewrite messages_append_log.
    cbn [log set_started_at set_status]. rewrite Hfiles.
    cbn [texts map List.length]. now rewrite <- !app_assoc.
  - intros Hmk. now rewrite (Hreason Hmk).
Qed.

Lemma build_error_fails_job_before_any_process_witness :
  runnable (status (job (samples.start cases.pathless_job)))
  /\ build_filter_and_inputs cases.pathless_job
     = Raise (ValueError "Image watermark requires an image path")
  /\ status (job (_run_job samples.world (samples.start cases.pathless_job))) = FAILED
  /\ launched (_run_job samples.world (samples.start cases.pathless_job)) = [].
Proof.
  assert (Hrun : runnable (status (job (samples.start cases.pathless_job))))
    by (split; discriminate).
  split; [exact Hrun |]. split; [reflexivity |].
  destruct (build_error_fails_job_before_any_process samples.world
              (samples.start cases.pathless_job) "in/a.mp4" ["in/b.mp4"]
              (ValueError "Image watermark requires an image path")
              Hrun eq_refl eq_refl) as (Hst & Hlaunch & _).
  split; [exact Hst | exact Hlaunch].
Defined.

(** ** The loop of a worker *)

Lemma set_jobs_insert_same (self : FFmpegQueue) (k : string) (j : Job) :
  _jobs self !! k = Some j -> set_jobs (<[k := j]> (_jobs self)) self = self.
Proof.
  intros Hk. destruct self as [jobs q ws mx ev]. unfold set_jobs. cbn in *.
  now rewrite (insert_id jobs k j Hk).
Qed.

(** What one turn does with an item that is not the retire token. *)
Lemma worker_turn_effect (w : World) (k : string) (app : App) :
  k <> "__stop__" ->
  exists app1,
    _worker_turn w (Some k) app = (Continue, app1)
    /\ settings app1 = settings app
    /\ _queue (queue app1) = _queue (queue app)
    /\ _workers (queue app1) = _workers (queue app)
    /\ _max_parallel_jobs (queue app1) = _max_parallel_jobs (queue app)
    /\ _stop_event (queue app1) = _stop_event (queue app)
    /\ entropy app1 = entropy app
    /\ (clock app <= clock app1)%nat
    /\ (forall k', k' <> k -> get_job (queue app1) k' = get_job (queue app) k')
    /\ match get_job (queue app) k with
       | None => get_job (queue app1) k = None
       | Some j =>
           exists j',
             get_job (queue app1) k = Some j'
             /\ terminal (status j')
             /\ (runnable (status j) -> status j' = COMPLETED \/ status j' = FAILED)
             /\ (~ runnable (status j) -> app1 = app)
             /\ id j' = id j
             /\ input_files j' = input_files j
             /\ exists added, log j' = log j ++ added
       end.
Proof.
  intros Hk. unfold _worker_turn.
  destruct (String.eqb_spec k "__stop__") as [Heq|_]; [contradiction |].
  destruct (get_job (queue app) k) as [j|] eqn:Hget.
  2: { exists app. rewrite Hget. repeat split; auto. }
  set (s := {| job := j; now := clock app; progress_writes := []; launched := [] |}).
  eexists. split; [reflexivity |]. cbn [settings queue clock entropy].
  destruct (run_job_Grows w s) as [Hfiles _ _ _ _ Hid _ _ Hlog Hnow].
  cbn [s job now] in Hfiles, Hid, Hlog, Hnow.
  repeat split; auto.
  - intros k' Hne. unfold get_job. cbn. now rewrite lookup_insert_ne.
  - exists (job (_run_job w s)). unfold get_job at 1. cbn [set_jobs _jobs].
    split; [apply lookup_insert_eq |].
    assert (Hcases : runnable (status j) \/ ~ runnable (status j)).
    { unfold runnable. destruct (status j); try (left; split; discriminate);
        right; intros [H1 H2]; congruence. }
    split.
    { destruct Hcases as [Hrun|Hno].
      - destruct (run_job_status w s Hrun) as [H|H]; unfold terminal; auto.
      - rewrite (run_job_guard w s Hno). cbn. unfold runnable, terminal in *.
        destruct (status j); auto; exfalso; apply Hno; split; discriminate. }
    split; [intros Hrun; exact (run_job_status w s Hrun) |].
    split; [| repeat split; assumption].
    intros Hno. rewrite (run_job_guard w s Hno). cbn [s job now].
    unfold get_job in Hget. rewrite (set_jobs_insert_same _ _ _ Hget).
    now destruct app.
Qed.

(** X7: a worker that takes from the queue the identifier of a job that is
    not registered, or of a job already completed or cancelled (a duplicate
    in the queue), goes round its loop again and changes nothing at all: the
    registry, the settings and the clock are what they were; so does a
    worker whose wait on the queue timed out. *)
Theorem worker_turn_skips_unknown_and_finished (w : World) (job_id : string)
    (app : App) :
  job_id <> "__stop__" ->
  (forall j, get_job (queue app) job_id = Some j -> ~ runnable (status j)) ->
  _worker_turn w (Some job_id) app = (Continue, app)
  /\ _worker_turn w None app = (Continue, app).
Proof.
  intros Hk Hdone. split; [| reflexivity].
  destruct (worker_turn_effect w job_id app Hk) as (app1 & Hturn & Hrest).
  rewrite Hturn. f_equal.
  destruct (get_job (queue app) job_id) as [j|] eqn:Hget.
  - destruct Hrest as (_ & _ & _ & _ & _ & _ & _ & _ & (j' & _ & _ & _ & Hsame & _)).
    apply Hsame. now apply Hdone.
  - unfold _worker_turn in Hturn.
    destruct (String.eqb_spec job_id "__stop__") as [Heq|_]; [contradiction |].
    rewrite Hget in Hturn. now injection Hturn as <-.
Qed.

(** X8: a worker that takes the identifier of a registered job that is
    neither completed nor cancelled runs it: afterwards the registry holds,
    under the same identifier, the job as [_run_job] leaves it, and the
    clock is where the run left it.  That job is completed or failed, with
    [started_at] the reading of the clock when the worker took it and
    [finished_at] set; it has the same identifier and inputs, and its log is
    the log it had followed by the start entry and the other entries of the
    run, the last being the completion entry exactly when it is completed.
    Every other job, the settings, the queue, the workers and the random
    draws are untouched, and the worker goes round its loop again. *)
Theorem worker_turn_runs_registered_job (w : World) (job_id : string)
    (j : Job) (app : App) :
  job_id <> "__stop__" ->
  get_job (queue app) job_id = Some j ->
  runnable (status j) ->
  let run :=
    _run_job w {| job := j; now := clock app; progress_writes := []; launched := [] |} in
  exists app',
    _worker_turn w (Some job_id) app = (Continue, app')
    /\ get_job (queue app') job_id = Some (job run)
    /\ clock app' = now run
    /\ (status (job run) = COMPLETED \/ status (job run) = FAILED)
    /\ started_at (job run) = Some (time_at w (clock app))
    /\ (exists t, finished_at (job run) = Some t)
    /\ id (job run) = id j
    /\ input_files (job run) = input_files j
    /\ (exists added,
          log (job run)
          = log j
              ++ ("[" +:+ strftime_at w (S (clock app)) +:+ "] "
                    +:+ message_text (Starting (List.length (input_files j))))
              :: added)
    /\ (status (job run) = COMPLETED
        <-> last (messages (log (job run))) = Some (message_text Finished))
    /\ (status (job run) = FAILED
        <-> exists reason,
              last (messages (log (job run))) = Some (message_text (Failed reason)))
    /\ (forall other, other <> job_id ->
          get_job (queue app') other = get_job (queue app) other)
    /\ settings app' = settings app
    /\ _queue (queue app') = _queue (queue app)
    /\ _workers (queue app') = _workers (queue app)
    /\ entropy app' = entropy app
    /\ (clock app < clock app')%nat.
Proof.
  intros Hk Hget Hrun run.
  set (s := {| job := j; now := clock app; progress_writes := []; launched := [] |}) in *.
  assert (Hturn : _worker_turn w (Some job_id) app
                  = (Continue,
                     {| settings := settings app;
                        queue := set_jobs (<[job_id := job run]> (_jobs (queue app)))
                                   (queue app);
                        clock := now run; entropy := entropy app |})).
  { unfold _worker_turn.
    destruct (String.eqb_spec job_id "__stop__") as [Heq|_]; [contradiction |].
    now rewrite Hget. }
  destruct (run_job_outcome w s Hrun) as (Hstatus & Hstart & Hfin & Hdone & Hfailed).
  destruct (run_job_log_starts w s Hrun) as [Hlog Hnow].
  destruct (run_job_Grows w s) as [Hfiles _ _ _ _ Hid _ _ _ _].
  eexists. split; [exact Hturn |].
  cbn [settings queue clock entropy set_jobs _jobs _queue _workers].
  split; [unfold get_job; cbn; apply lookup_insert_eq |].
  split; [reflexivity |].
  split; [exact Hstatus |]. split; [exact Hstart |]. split; [exact Hfin |].
  split; [exact Hid |]. split; [exact Hfiles |]. split; [exact Hlog |].
  split; [exact Hdone |]. split; [exact Hfailed |].
  split.
  { intros other Hne. unfold get_job. cbn. now rewrite lookup_insert_ne. }
  repeat split; auto.
Qed.

Lemma worker_turn_runs_registered_job_witness :
  get_job (queue (snd cases.first_created)) (id (fst cases.first_created))
  = Some (fst cases.first_created)
  /\ exists app',
       _worker_turn samples.world (Some (id (fst cases.first_created)))
         (snd cases.first_created) = (Continue, app')
       /\ exists j',
            get_job (queue app') (id (fst cases.first_created)) = Some j'
            /\ status j' = COMPLETED
            /\ messages (log j')
               = ["Job created and queued"; "Starting job with 1 file(s)";
                  "Processing a.mp4 -> a_watermarked.mp4";
                  "Command: ffmpeg -y -i in/a.mp4 -filter_complex 'drawtext=text=Hi\: there:fontcolor=white:fontsize=36:x=(W-w)/2:y=(H-h)/2' -c:v libx264 -preset medium -c:a copy storage/output/a_watermarked.mp4";
                  "frame=    1 fps=0.0"; "Completed a.mp4";
                  "Job finished successfully"].
Proof.
  assert (Hget : get_job (queue (snd cases.first_created))
                         (id (fst cases.first_created))
                 = Some (fst cases.first_created))
    by apply create_job_registered.
  split; [exact Hget |].
  destruct (worker_turn_runs_registered_job samples.world
              (id (fst cases.first_created)) (fst cases.first_created)
              (snd cases.first_created))
    as (app' & Hturn & Hj' & _).
  - apply hex_not_stop.
  - exact Hget.
  - split; discriminate.
  - exists app'. split; [exact Hturn |]. eexists. split; [exact Hj' |].
    split; vm_compute; reflexivity.
Defined.

Lemma worker_turn_skips_unknown_and_finished_witness :
  "no-such-job" <> "__stop__"
  /\ _worker_turn samples.world (Some "no-such-job") (snd cases.first_created)
     = (Continue, snd cases.first_created).
Proof.
  assert (Hne : "no-such-job" <> "__stop__") by discriminate.
  split; [exact Hne |].
  apply (worker_turn_skips_unknown_and_finished samples.world "no-such-job"
           (snd cases.first_created) Hne).
  intros j Hj. exfalso. vm_compute in Hj. discriminate Hj.
Defined.




(** ** What [create_job] stores *)

Lemma dict_setdefault_lookup (key value : string) (d : gmap string string) (k : string) :
  dict_setdefault key value d !! k
  = if decide (k = key) then Some (default value (d !! key)) else d !! k.
Proof.
  unfold dict_setdefault. destruct (d !! key) as [v|] eqn:Hkey.
  - destruct (decide (k = key)) as [->|]; [now rewrite Hkey | reflexivity].
  - destruct (decide (k = key)) as [->|Hne].
    + now rewrite lookup_insert_eq.
    + now rewrite lookup_insert_ne.
Qed.

Lemma create_job_metadata_lookup (w : World) files wm fmt td md (app : App) (k : string) :
  metadata (fst (create_job w files wm fmt td md app)) !! k
  = if decide (k = "ffmpeg_binary")
    then Some (default (config.ffmpeg_binary (ffmpeg_queue.settings app))
                       (default ∅ md !! "ffmpeg_binary"))
    else default ∅ md !! k.
Proof.
  cbn. rewrite dict_setdefault_lookup.
  now rewrite (right_id_L ∅ (∪) (default ∅ md)).
Qed.

Lemma build_ffmpeg_command_ends (job : Job) (input_file output_file : string)
    (cmd : list string) :
  build_ffmpeg_command job input_file output_file = Ok cmd ->
  exists middle,
    cmd = [default "ffmpeg" (metadata job !! "ffmpeg_binary"); "-y"; "-i"; input_file]
            ++ middle ++ ["-c:a"; "copy"; output_file].
Proof.
  unfold build_ffmpeg_command.
  destruct (build_filter_and_inputs job) as [[inputs filters]|e]; [| discriminate].
  intros [= <-]. destruct filters as [|f filters].
  - exists (inputs ++ codec_clause job).
    simpl. rewrite <- ?app_assoc. reflexivity.
  - exists (inputs ++ ["-filter_complex"; join ";" (f :: filters)] ++ codec_clause job).
    simpl. rewrite <- ?app_assoc. reflexivity.
Qed.

(** X10: the metadata [create_job] stores is the metadata it was given, with
    the binary of the settings under [ffmpeg_binary] unless the caller gave
    one there, which is kept.  So every command built for a created job
    starts with the caller's binary, or else with the binary the settings
    had when the job was created, never with the fallback of the command
    builder. *)
Theorem create_job_records_binary (w : World) (files : list string)
    (wm : schemas.WatermarkSettingsIn) (fmt : option string) (td : string)
    (md : option (gmap string string)) (app : App) :
  let job := fst (create_job w files wm fmt td md app) in
  let given := default ∅ md in
  let binary :=
    default (config.ffmpeg_binary (ffmpeg_queue.settings app))
            (given !! "ffmpeg_binary") in
  metadata job !! "ffmpeg_binary" = Some binary
  /\ (forall k, k <> "ffmpeg_binary" -> metadata job !! k = given !! k)
  /\ (forall input_file output_file cmd,
        build_ffmpeg_command job input_file output_file = Ok cmd ->
        exists rest, cmd = binary :: "-y" :: "-i" :: input_file :: rest).
Proof.
  intros job given binary.
  assert (Hbin : metadata job !! "ffmpeg_binary" = Some binary).
  { subst job. rewrite create_job_metadata_lookup.
    destruct (decide ("ffmpeg_binary" = "ffmpeg_binary")); [reflexivity | contradiction]. }
  split; [exact Hbin |]. split.
  - intros k Hk. subst job. rewrite create_job_metadata_lookup.
    destruct (decide (k = "ffmpeg_binary")); [contradiction | reflexivity].
  - intros input_file output_file cmd Hcmd.
    destruct (build_ffmpeg_command_ends job input_file output_file cmd Hcmd)
      as (middle & ->).
    rewrite Hbin. cbn. eexists. reflexivity.
Qed.

(** X11: the job [POST /jobs] creates carries exactly the binary of the
    settings and, when the form has a non-empty preset, that preset; when it
    is stored for the cpu its codec clause uses that preset, and [medium] if
    the form had none or an empty one. *)
Theorem posted_job_preset (w : World) (files : list string)
    (wm : schemas.WatermarkSettingsIn) (fmt : option string) (td : string)
    (preset : option string) (app : App) :
  let posted := main.create_job w files wm fmt td preset app in
  let chosen :=
    match preset with
    | Some p => if truthy p then Some p else None
    | None => None
    end in
  exists job,
    get_job (queue (snd posted)) (fst posted) = Some job
    /\ metadata job !! "ffmpeg_binary"
       = Some (config.ffmpeg_binary (ffmpeg_queue.settings app))
    /\ metadata job !! "preset" = chosen
    /\ (forall k, k <> "ffmpeg_binary" -> k <> "preset" -> metadata job !! k = None)
    /\ (target_device job = "cpu" ->
        codec_clause job = ["-c:v"; "libx264"; "-preset"; default "medium" chosen]).
Proof.
  intros posted chosen. subst posted. unfold main.create_job.
  set (td' := if negb (String.eqb td "cpu")
                 && negb (config.allow_gpu (ffmpeg_queue.settings app))
              then "cpu" else td).
  set (given := <["ffmpeg_binary" := _]> _).
  destruct (create_job w files wm fmt td' (Some given) app) as [job app'] eqn:Hc.
  assert (Hjob : job = fst (create_job w files wm fmt td' (Some given) app))
    by now rewrite Hc.
  assert (Happ : app' = snd (create_job w files wm fmt td' (Some given) app))
    by now rewrite Hc.
  exists job. cbn [fst snd].
  split; [rewrite Happ, Hjob; apply create_job_registered |].
  assert (Hgiven : forall k,
             given !! k
             = if decide (k = "ffmpeg_binary")
               then Some (config.ffmpeg_binary (ffmpeg_queue.settings app))
               else if decide (k = "preset") then chosen else None).
  { intros k. subst given chosen.
    destruct (decide (k = "ffmpeg_binary")) as [->|Hb].
    - apply lookup_insert_eq.
    - rewrite lookup_insert_ne by congruence.
      destruct preset as [p|]; [destruct (truthy p) |].
      + destruct (decide (k = "preset")) as [->|Hp].
        * apply lookup_insert_eq.
        * rewrite lookup_insert_ne by congruence. apply lookup_empty.
      + rewrite lookup_empty. now destruct (decide (k = "preset")).
      + rewrite lookup_empty. now destruct (decide (k = "preset")). }
  assert (Hmeta : forall k,
             metadata job !! k
             = if decide (k = "ffmpeg_binary")
               then Some (config.ffmpeg_binary (ffmpeg_queue.settings app))
               else if decide (k = "preset") then chosen else None).
  { intros k. rewrite Hjob, create_job_metadata_lookup. cbn [default].
    rewrite !Hgiven.
    destruct (decide (k = "ffmpeg_binary")) as [->|Hb]; [| reflexivity].
    destruct (decide ("ffmpeg_binary" = "ffmpeg_binary")); [reflexivity | contradiction]. }
  assert (Hpreset : metadata job !! "preset" = chosen).
  { rewrite Hmeta. destruct (decide ("preset" = "ffmpeg_binary")); [discriminate |].
    destruct (decide ("preset" = "preset")); [reflexivity | contradiction]. }
  split.
  { rewrite Hmeta.
    destruct (decide ("ffmpeg_binary" = "ffmpeg_binary")); [reflexivity | contradiction]. }
  split; [exact Hpreset |].
  split.
  { intros k Hb Hp. rewrite Hmeta.
    destruct (decide (k = "ffmpeg_binary")); [contradiction |].
    destruct (decide (k = "preset")); [contradiction | reflexivity]. }
  intros Hcpu. unfold codec_clause. now rewrite Hcpu, Hpreset.
Qed.

Lemma posted_job_preset_witness :
  exists job,
    get_job (queue (snd (main.create_job samples.world ["in/a.mp4"]
                           samples.text_payload None "cpu" (Some "fast") samples.app)))
            (fst (main.create_job samples.world ["in/a.mp4"]
                    samples.text_payload None "cpu" (Some "fast") samples.app))
    = Some job
    /\ target_device job = "cpu"
    /\ codec_clause job = ["-c:v"; "libx264"; "-preset"; "fast"].
Proof.
  destruct (posted_job_preset samples.world ["in/a.mp4"] samples.text_payload
              None "cpu" (Some "fast") samples.app)
    as (job & Hget & _ & _ & _ & Hcodec).
  exists job. split; [exact Hget |].
  assert (Hcpu : target_device job = "cpu").
  { vm_compute in Hget. injection Hget as <-. reflexivity. }
  split; [exact Hcpu | exact (Hcodec Hcpu)].
Defined.

(** X12: [create_job] does not turn away an image watermark whose image path
    is missing or empty: it stores the job without an image path (an empty
    path counts as none), and then no command can be built for the job; the
    builder raises its [ValueError] for every input (the position being one
    of the five). *)
Theorem create_job_accepts_image_without_path (w : World) (files : list string)
    (wm : schemas.WatermarkSettingsIn) (fmt : option string) (td : string)
    (md : option (gmap string string)) (app : App) :
  schemas.type wm = IMAGE ->
  schemas.image_path wm = None \/ schemas.image_path wm = Some "" ->
  In (schemas.position wm) (map fst POSITION_MAP) ->
  let job := fst (create_job w files wm fmt td md app) in
  get_job (queue (snd (create_job w files wm fmt td md app))) (id job) = Some job
  /\ image_path (watermark job) = None
  /\ forall input_file output_file,
       build_ffmpeg_command job input_file output_file
       = Raise (ValueError "Image watermark requires an image path").
Proof.
  intros Htype Hpath Hpos job.
  split; [apply create_job_registered |].
  assert (Hnone : image_path (watermark job) = None).
  { subst job. cbn. destruct Hpath as [->| ->]; reflexivity. }
  split; [exact Hnone |].
  intros input_file output_file.
  assert (Hresolve : exists x y, resolve_position (watermark job) = Ok (x, y)).
  { assert (Hp : position (watermark job) = schemas.position wm) by reflexivity.
    cbn in Hpos.
    destruct Hpos as [H|[H|[H|[H|[H|[]]]]]];
      do 2 eexists;
      apply (resolve_position_table (watermark job) (schemas.position wm));
      try exact Hp; rewrite <- H; cbn; eauto 10. }
  destruct Hresolve as (x & y & Hresolve).
  unfold build_ffmpeg_command, build_filter_and_inputs. cbv zeta.
  rewrite Hresolve, Hnone.
  assert (Ht : type (watermark job) = IMAGE) by exact Htype.
  now rewrite Ht.
Qed.

Lemma create_job_accepts_image_without_path_witness :
  build_ffmpeg_command
    (fst (create_job samples.world ["in/a.mp4"]
            {| schemas.type := IMAGE; schemas.text := None;
               schemas.font_path := None; schemas.font_size := 36;
               schemas.color := "white"; schemas.image_path := Some "";
               schemas.opacity := 1; schemas.position := "center";
               schemas.offset_x := 0; schemas.offset_y := 0 |}
            None "cpu" None samples.app))
    "in/a.mp4" "out/a.mp4"
  = Raise (ValueError "Image watermark requires an image path").
Proof.
  apply (create_job_accepts_image_without_path samples.world ["in/a.mp4"]
           {| schemas.type := IMAGE; schemas.text := None;
              schemas.font_path := None; schemas.font_size := 36;
              schemas.color := "white"; schemas.image_path := Some "";
              schemas.opacity := 1; schemas.position := "center";
              schemas.offset_x := 0; schemas.offset_y := 0 |}
           None "cpu" None samples.app eq_refl (or_intror eq_refl)).
  cbn. auto 10.
Defined.

Lemma map_lookup_Some {A B : Type} (f : A -> B) (l : list A) (i : nat) (y : B) :
  map f l !! i = Some y -> exists x, l !! i = Some x /\ f x = y.
Proof.
  revert i. induction l as [|a l IH]; intros [|i] H; try discriminate H.
  - injection H as <-. exists a. split; reflexivity.
  - apply (IH i H).
Qed.

Lemma map_lookup {A B : Type} (f : A -> B) (l : list A) (i : nat) (x : A) :
  l !! i = Some x -> map f l !! i = Some (f x).
Proof.
  revert i. induction l as [|a l IH]; intros [|i] H; try discriminate H.
  - now injection H as <-.
  - apply (IH i H).
Qed.

(** X13: the i-th process a run of a created job starts reads the i-th file
    the job was created with and writes to the path [pathlib] makes of the
    output directory of the settings and the stem of that file followed by
    [_watermarked.] and the output format: the format asked for, or the
    default of the settings when none or an empty one was asked for.  The
    path is in normal form: a slash in the format starts a new component,
    and a slash at its end is dropped. *)
Theorem created_job_output_paths (w : World) (files : list string)
    (wm : schemas.WatermarkSettingsIn) (fmt : option string) (td : string)
    (md : option (gmap string string)) (app : App)
    (w' : World) (c i : nat) (cmd : list string) :
  let job := fst (create_job w files wm fmt td md app) in
  let format :=
    match fmt with
    | Some f => if truthy f then f else config.default_output_format (ffmpeg_queue.settings app)
    | None => config.default_output_format (ffmpeg_queue.settings app)
    end in
  launched (_run_job w' {| job := job; now := c; progress_writes := []; launched := [] |})
    !! i = Some cmd ->
  exists input_file middle,
    files !! i = Some input_file
    /\ cmd = [default "ffmpeg" (metadata job !! "ffmpeg_binary"); "-y"; "-i"; input_file]
               ++ middle
               ++ ["-c:a"; "copy";
                   joinpath (config.output_path (ffmpeg_queue.settings app))
                     (stem input_file +:+ "_watermarked." +:+ format)].
Proof.
  intros job format Hcmd.
  destruct (run_job_launched w'
              {| job := job; now := c; progress_writes := []; launched := [] |})
    as (started & Hlaunched & _ & Hstarted).
  cbn [launched job List.app] in Hlaunched, Hstarted. rewrite Hlaunched in Hcmd.
  pose proof (map_lookup Ok started i cmd Hcmd) as Hok.
  rewrite Hstarted in Hok.
  destruct (map_lookup_Some _ _ _ _ Hok) as (input_file & Hfile & Hbuild).
  apply lookup_take_Some in Hfile. destruct Hfile as [Hfile _].
  destruct (build_ffmpeg_command_ends job input_file _ cmd Hbuild) as (middle & ->).
  exists input_file, middle. split; [exact Hfile | reflexivity].
Qed.

Lemma created_job_output_paths_witness :
  launched (_run_job samples.world
              {| job := fst cases.second_created; now := 0;
                 progress_writes := []; launched := [] |}) !! 1%nat
  = Some ["ffmpeg"; "-y"; "-i"; "in/c.mp4"; "-filter_complex";
          "drawtext=text=Hi\: there:fontcolor=white:fontsize=36:x=(W-w)/2:y=(H-h)/2";
          "-c:v"; "libx264"; "-preset"; "medium"; "-c:a"; "copy";
          "storage/output/c_watermarked.mp4"]
  /\ (exists input_file middle,
       ["in/b.mp4"; "in/c.mp4"] !! 1%nat = Some input_file
       /\ ["ffmpeg"; "-y"; "-i"; "in/c.mp4"; "-filter_complex";
           "drawtext=text=Hi\: there:fontcolor=white:fontsize=36:x=(W-w)/2:y=(H-h)/2";
           "-c:v"; "libx264"; "-preset"; "medium"; "-c:a"; "copy";
           "storage/output/c_watermarked.mp4"]
          = ["ffmpeg"; "-y"; "-i"; input_file] ++ middle
              ++ ["-c:a"; "copy"; "storage/output/" +:+ stem input_file +:+ "_watermarked.mp4"])
  /\ output_format (fst cases.slashed_created) = "mp4/"
  /\ option_map (fun cmd => List.last cmd "")
       (launched (_run_job samples.world
                    {| job := fst cases.slashed_created; now := 0;
                       progress_writes := []; launched := [] |}) !! 0%nat)
     = Some "storage/output/a_watermarked.mp4".
Proof.
  assert (H : launched (_run_job samples.world
                          {| job := fst cases.second_created; now := 0;
                             progress_writes := []; launched := [] |}) !! 1%nat
              = Some ["ffmpeg"; "-y"; "-i"; "in/c.mp4"; "-filter_complex";
                      "drawtext=text=Hi\: there:fontcolor=white:fontsize=36:x=(W-w)/2:y=(H-h)/2";
                      "-c:v"; "libx264"; "-preset"; "medium"; "-c:a"; "copy";
                      "storage/output/c_watermarked.mp4"])
    by (vm_compute; reflexivity).
  split; [exact H |].
  split; [| split; vm_compute; reflexivity].
  destruct (created_job_output_paths samples.world ["in/b.mp4"; "in/c.mp4"]
              samples.text_payload None "cpu" None (snd cases.first_created)
              samples.world 0 1 _ H) as (input_file & middle & Hfile & Hcmd).
  exists input_file, middle. split; [exact Hfile |].
  injection Hfile as <-. exact Hcmd.
Defined.

(** ** Reconfiguration *)

Lemma resize_workers_keeps (self : FFmpegQueue) :
  _jobs (_resize_workers self) = _jobs self
  /\ _max_parallel_jobs (_resize_workers self) = _max_parallel_jobs self
  /\ _stop_event (_resize_workers self) = _stop_event self.
Proof.
  unfold _resize_workers.
  destruct (_ <? _)%Z; [repeat split |].
  destruct (_ <? _)%Z; repeat split.
Qed.

(** [update_settings], one step after the other. *)
Lemma update_settings_steps (payload : schemas.SettingsUpdate) (app : App) :
  let resized :=
    match schemas.max_parallel_jobs payload with
    | Some v => negb (v =? _max_parallel_jobs (queue app))%Z
    | None => false
    end in
  let self :=
    match schemas.max_parallel_jobs payload with
    | Some v => if resized then _resize_workers (set_max v (queue app)) else queue app
    | None => queue app
    end in
  let st1 :=
    match schemas.max_parallel_jobs payload with
    | Some v => if resized then config.set_max_parallel_jobs v (ffmpeg_queue.settings app)
                else ffmpeg_queue.settings app
    | None => ffmpeg_queue.settings app
    end in
  let st2 :=
    match schemas.default_output_format payload with
    | Some v => config.set_default_output_format v st1
    | None => st1
    end in
  let st3 :=
    match schemas.ffmpeg_binary payload with
    | Some v => config.set_ffmpeg_binary v st2
    | None => st2
    end in
  let st4 :=
    match schemas.allow_gpu payload with
    | Some v => config.set_allow_gpu v st3
    | None => st3
    end in
  let changed :=
    resized
    || bool_decide (is_Some (schemas.default_output_format payload))
    || bool_decide (is_Some (schemas.ffmpeg_binary payload))
    || bool_decide (is_Some (schemas.allow_gpu payload)) in
  update_settings payload app
  = {| ffmpeg_queue.settings := st4;
       queue :=
         if changed
         then set_jobs (record_binary (config.ffmpeg_binary st4) <$> _jobs self) self
         else self;
       clock := clock app; entropy := entropy app |}.
Proof.
  destruct payload as [[v|] [g|] [f|] [b|]]; unfold update_settings;
    cbn [schemas.max_parallel_jobs schemas.allow_gpu schemas.default_output_format
         schemas.ffmpeg_binary];
    try (destruct (v =? _max_parallel_jobs (queue app))%Z eqn:Hv);
    cbn [negb orb]; try rewrite (proj1 (proj2 (resize_workers_keeps _)));
    reflexivity.
Qed.

Lemma update_settings_fields (payload : schemas.SettingsUpdate) (app : App) :
  let app' := update_settings payload app in
  let st := ffmpeg_queue.settings app in
  let st' := ffmpeg_queue.settings app' in
  config.default_output_format st'
  = default (config.default_output_format st) (schemas.default_output_format payload)
  /\ config.ffmpeg_binary st'
     = default (config.ffmpeg_binary st) (schemas.ffmpeg_binary payload)
  /\ config.allow_gpu st' = default (config.allow_gpu st) (schemas.allow_gpu payload)
  /\ _max_parallel_jobs (queue app')
     = default (_max_parallel_jobs (queue app)) (schemas.max_parallel_jobs payload)
  /\ config.max_parallel_jobs st'
     = match schemas.max_parallel_jobs payload with
       | Some v => if (v =? _max_parallel_jobs (queue app))%Z
                   then config.max_parallel_jobs st else v
       | None => config.max_parallel_jobs st
       end
  /\ config.storage_root st' = config.storage_root st
  /\ config.upload_dir st' = config.upload_dir st
  /\ config.output_dir st' = config.output_dir st
  /\ config.temp_dir st' = config.temp_dir st
  /\ _stop_event (queue app') = _stop_event (queue app)
  /\ clock app' = clock app /\ entropy app' = entropy app.
Proof.
  intros app' st st'. subst app' st st'. rewrite update_settings_steps.
  destruct payload as [[v|] [g|] [f|] [b|]];
    cbn [schemas.max_parallel_jobs schemas.allow_gpu schemas.default_output_format
         schemas.ffmpeg_binary default];
    try (destruct (v =? _max_parallel_jobs (queue app))%Z eqn:Hv;
         [apply Z.eqb_eq in Hv |]);
    cbn [negb orb bool_decide];
    repeat match goal with
           | |- context [bool_decide ?P] =>
               let H := fresh in destruct (bool_decide P) eqn:H
           end;
    cbn [orb ffmpeg_queue.settings queue clock entropy set_jobs
         _max_parallel_jobs _stop_event];
    rewrite ?(proj1 (proj2 (resize_workers_keeps _))),
      ?(proj2 (proj2 (resize_workers_keeps _)));
    repeat split; try reflexivity; try (symmetry; assumption); try discriminate.
Qed.

(** X14: [update_settings] changes a setting only when the payload has a
    value for it, to that value: the default output format, the binary and
    the GPU flag; the worker count of the queue likewise, and the one of the
    settings follows it whenever it changes.  The storage directories, the
    stop event, the clock and the random draws are never touched, and a
    payload with no value at all changes nothing. *)
Theorem update_settings_changes_only_given_fields (payload : schemas.SettingsUpdate)
    (app : App) :
  let app' := update_settings payload app in
  let st := ffmpeg_queue.settings app in
  let st' := ffmpeg_queue.settings app' in
  config.default_output_format st'
  = default (config.default_output_format st) (schemas.default_output_format payload)
  /\ config.ffmpeg_binary st'
     = default (config.ffmpeg_binary st) (schemas.ffmpeg_binary payload)
  /\ config.allow_gpu st' = default (config.allow_gpu st) (schemas.allow_gpu payload)
  /\ _max_parallel_jobs (queue app')
     = default (_max_parallel_jobs (queue app)) (schemas.max_parallel_jobs payload)
  /\ config.max_parallel_jobs st'
     = match schemas.max_parallel_jobs payload with
       | Some v => if (v =? _max_parallel_jobs (queue app))%Z
                   then config.max_parallel_jobs st else v
       | None => config.max_parallel_jobs st
       end
  /\ config.storage_root st' = config.storage_root st
  /\ config.upload_dir st' = config.upload_dir st
  /\ config.output_dir st' = config.output_dir st
  /\ config.temp_dir st' = config.temp_dir st
  /\ _stop_event (queue app') = _stop_event (queue app)
  /\ clock app' = clock app /\ entropy app' = entropy app
  /\ (payload = {| schemas.max_parallel_jobs := None; schemas.allow_gpu := None;
                   schemas.default_output_format := None;
                   schemas.ffmpeg_binary := None |} -> app' = app).
Proof.
  intros app' st st'.
  destruct (update_settings_fields payload app)
    as (H1 & H2 & H3 & H4 & H5 & H6 & H7 & H8 & H9 & H10 & H11 & H12).
  repeat (split; [assumption |]).
  intros ->. subst app'. rewrite update_settings_steps. cbn. now destruct app.
Qed.

Lemma validate_parallel_jobs_ok (body payload : schemas.SettingsUpdate) :
  schemas.SettingsUpdate_validate body = Ok payload ->
  payload = body
  /\ forall v, schemas.max_parallel_jobs body = Some v -> (1 <= v)%Z.
Proof.
  unfold schemas.SettingsUpdate_validate, schemas.validate_parallel_jobs.
  destruct (schemas.max_parallel_jobs body) as [v|].
  - destruct (v <? 1)%Z eqn:Hv; [cbn; discriminate |].
    apply Z.ltb_ge in Hv.
    destruct (schemas.validate_output_format _) as [?|[]]; cbn; try discriminate;
      (intros [= <-]; split; [reflexivity |]; intros ? [= <-]; exact Hv).
  - destruct (schemas.validate_output_format _) as [?|[]]; cbn; try discriminate;
      (intros [= <-]; split; [reflexivity | discriminate]).
Qed.

Lemma patch_keeps_worker_count_valid (body : schemas.SettingsUpdate) (app : App) :
  config.max_parallel_jobs (ffmpeg_queue.settings app) = _max_parallel_jobs (queue app) ->
  (1 <= _max_parallel_jobs (queue app))%Z ->
  config.max_parallel_jobs (ffmpeg_queue.settings (snd (main.update_settings body app)))
  = _max_parallel_jobs (queue (snd (main.update_settings body app)))
  /\ (1 <= _max_parallel_jobs (queue (snd (main.update_settings body app))))%Z.
Proof.
  intros Hsync Hone. unfold main.update_settings.
  destruct (schemas.SettingsUpdate_validate body) as [payload|e] eqn:Hval;
    [| split; assumption].
  destruct (validate_parallel_jobs_ok body payload Hval) as [-> Hmin].
  cbn [snd]. rewrite update_settings_steps.
  destruct body as [[v|] g f b];
    cbn [schemas.max_parallel_jobs schemas.allow_gpu schemas.default_output_format
         schemas.ffmpeg_binary] in *.
  - specialize (Hmin v eq_refl).
    destruct (v =? _max_parallel_jobs (queue app))%Z eqn:Hv;
      destruct g, f, b; cbn; rewrite ?(proj1 (proj2 (resize_workers_keeps _)));
      cbn; split; auto.
  - destruct g, f, b; cbn; split; auto.
Qed.

(** X15: whatever sequence of [PATCH /settings] requests is served, accepted
    or not, the worker count of the settings and the one of the queue stay
    equal and never fall below 1, if they were so when the sequence began,
    as they are when the application starts with valid settings. *)
Theorem patches_keep_worker_count_valid (bodies : list schemas.SettingsUpdate) :
  forall app : App,
    config.max_parallel_jobs (ffmpeg_queue.settings app) = _max_parallel_jobs (queue app) ->
    (1 <= _max_parallel_jobs (queue app))%Z ->
    let app' := patch_settings_all bodies app in
    config.max_parallel_jobs (ffmpeg_queue.settings app') = _max_parallel_jobs (queue app')
    /\ (1 <= _max_parallel_jobs (queue app'))%Z.
Proof.
  induction bodies as [|body bodies IH]; intros app Hsync Hone app'.
  - split; assumption.
  - subst app'. cbn [patch_settings_all fold_left].
    destruct (patch_keeps_worker_count_valid body app Hsync Hone) as [Hsync' Hone'].
    exact (IH _ Hsync' Hone').
Qed.

Lemma patches_keep_worker_count_valid_witness :
  config.max_parallel_jobs (ffmpeg_queue.settings (boot samples.settings))
  = _max_parallel_jobs (queue (boot samples.settings))
  /\ (1 <= _max_parallel_jobs
             (queue (patch_settings_all
                       [samples.three_workers; samples.zero_workers; cases.one_worker]
                       (boot samples.settings))))%Z
  /\ _max_parallel_jobs
       (queue (patch_settings_all
                 [samples.three_workers; samples.zero_workers; cases.one_worker]
                 (boot samples.settings))) = 1%Z.
Proof.
  split; [reflexivity |]. split; [| vm_compute; reflexivity].
  apply (patches_keep_worker_count_valid
           [samples.three_workers; samples.zero_workers; cases.one_worker]
           (boot samples.settings) eq_refl).
  cbn. lia.
Defined.

Lemma length_repeat_alive (n : nat) : List.length (repeat {| alive := true |} n) = n.
Proof. apply repeat_length. Qed.

(** X16: when the payload asks for a worker count [v] other than the one of
    the queue, the pool is resized against the size [n] of the roster: with
    [v] above [n], [v - n] live workers are added after the ones there and
    nothing is queued; with [v] below [n], [n - v] retire tokens are queued
    after what was queued, and the roster keeps its live workers only; with
    [v] equal to [n] neither changes.  The jobs waiting in the queue keep
    their places. *)
Theorem update_settings_resizes_pool (payload : schemas.SettingsUpdate) (v : Z)
    (app : App) :
  schemas.max_parallel_jobs payload = Some v ->
  v <> _max_parallel_jobs (queue app) ->
  let app' := update_settings payload app in
  let n := Z.of_nat (List.length (_workers (queue app))) in
  _max_parallel_jobs (queue app') = v
  /\ ((n < v)%Z ->
      _workers (queue app')
      = _workers (queue app) ++ repeat {| alive := true |} (Z.to_nat (v - n))
      /\ Z.of_nat (List.length (_workers (queue app'))) = v
      /\ _queue (queue app') = _queue (queue app))
  /\ ((v < n)%Z ->
      _queue (queue app')
      = _queue (queue app) ++ repeat "__stop__" (Z.to_nat (n - v))
      /\ _workers (queue app') = List.filter alive (_workers (queue app)))
  /\ (v = n ->
      _workers (queue app') = _workers (queue app)
      /\ _queue (queue app') = _queue (queue app)).
Proof.
  intros Hv Hne app' n. subst app'. rewrite update_settings_steps, Hv.
  apply Z.eqb_neq in Hne. rewrite Hne. cbn [negb orb].
  set (st4 := match schemas.allow_gpu payload with Some _ => _ | None => _ end).
  cbn [queue set_jobs _max_parallel_jobs _workers _queue].
  split; [now rewrite (proj1 (proj2 (resize_workers_keeps _))) |].
  unfold _resize_workers. cbn [set_max _workers _max_parallel_jobs _queue _jobs _stop_event].
  fold n.
  split; [| split].
  - intros Hlt. apply Z.ltb_lt in Hlt. rewrite Hlt. cbn [_workers _queue].
    apply Z.ltb_lt in Hlt.
    split; [reflexivity |]. split; [| reflexivity].
    rewrite length_app, length_repeat_alive. subst n. lia.
  - intros Hlt.
    assert (H1 : (n <? v)%Z = false) by (apply Z.ltb_ge; lia).
    apply Z.ltb_lt in Hlt. rewrite H1, Hlt. cbn [_workers _queue].
    split; reflexivity.
  - intros ->. rewrite Z.ltb_irrefl. cbn [_workers _queue set_max]. split; reflexivity.
Qed.

Lemma update_settings_resizes_pool_witness :
  schemas.max_parallel_jobs samples.three_workers = Some 3%Z
  /\ _workers (queue (update_settings samples.three_workers (boot samples.settings)))
     = [{| alive := true |}; {| alive := true |}; {| alive := true |}]
  /\ _queue (queue (update_settings cases.one_worker (boot samples.settings)))
     = ["__stop__"].
Proof.
  split; [reflexivity |]. split.
  - destruct (update_settings_resizes_pool samples.three_workers 3
                (boot samples.settings) eq_refl) as (_ & Hup & _).
    + discriminate.
    + destruct Hup as (Hw & _); [vm_compute; reflexivity |]. rewrite Hw. reflexivity.
  - destruct (update_settings_resizes_pool cases.one_worker 1
                (boot samples.settings) eq_refl) as (_ & _ & Hdown & _).
    + discriminate.
    + destruct Hdown as (Hq & _); [vm_compute; reflexivity |]. rewrite Hq. reflexivity.
Defined.

Lemma record_binary_recorded (binary : string) (j : Job) :
  is_Some (metadata j !! "ffmpeg_binary") -> record_binary binary j = j.
Proof.
  intros [b Hb]. unfold record_binary, dict_setdefault. rewrite Hb. now destruct j.
Qed.

Lemma update_settings_jobs (payload : schemas.SettingsUpdate) (app : App) :
  _jobs (queue (update_settings payload app)) = _jobs (queue app)
  \/ exists binary,
       _jobs (queue (update_settings payload app))
       = record_binary binary <$> _jobs (queue app).
Proof.
  rewrite update_settings_steps. cbv zeta. cbn [queue].
  destruct (schemas.max_parallel_jobs payload) as [v|].
  - destruct (negb (v =? _max_parallel_jobs (queue app))%Z).
    + right. cbn [orb set_jobs _jobs]. eexists.
      rewrite (proj1 (resize_workers_keeps _)). reflexivity.
    + cbn [orb]. destruct (_ || _); [right | now left].
      eexists. reflexivity.
  - cbn [orb]. destruct (_ || _); [right | now left].
    eexists. reflexivity.
Qed.

(** X17: [update_settings] neither adds a job to the registry nor drops one,
    and it never alters a job that has a binary recorded in its metadata.
    Every job made by [create_job] has one, so a later change of the
    settings, of the binary even, leaves it exactly as it was. *)
Theorem update_settings_keeps_recorded_jobs (payload : schemas.SettingsUpdate)
    (app : App) :
  let app' := update_settings payload app in
  (forall k, is_Some (get_job (queue app') k) <-> is_Some (get_job (queue app) k))
  /\ (forall k j,
        get_job (queue app) k = Some j ->
        is_Some (metadata j !! "ffmpeg_binary") ->
        get_job (queue app') k = Some j)
  /\ (forall w files wm fmt td md,
        let created := create_job w files wm fmt td md app in
        get_job (queue (update_settings payload (snd created))) (id (fst created))
        = Some (fst created)).
Proof.
  intros app'.
  assert (Hkeep : forall a k j,
             get_job (queue a) k = Some j ->
             is_Some (metadata j !! "ffmpeg_binary") ->
             get_job (queue (update_settings payload a)) k = Some j).
  { intros a k j Hget Hrec. unfold get_job in *.
    destruct (update_settings_jobs payload a) as [->|[binary ->]]; [exact Hget |].
    rewrite lookup_fmap, Hget. cbn. now rewrite record_binary_recorded. }
  split; [| split].
  - intros k. subst app'. unfold get_job.
    destruct (update_settings_jobs payload app) as [->|[binary ->]]; [reflexivity |].
    rewrite lookup_fmap. destruct (_jobs (queue app) !! k); cbn; split;
      intros [x Hx]; try discriminate Hx; eauto.
  - exact (Hkeep app).
  - intros w files wm fmt td md created. apply Hkeep.
    + apply create_job_registered.
    + subst created. rewrite create_job_metadata_lookup.
      destruct (decide ("ffmpeg_binary" = "ffmpeg_binary")); [eauto | contradiction].
Qed.

Lemma record_binary_twice (b : string) (j : Job) :
  record_binary b (record_binary b j) = record_binary b j.
Proof.
  apply record_binary_recorded. unfold record_binary. cbn.
  rewrite dict_setdefault_lookup.
  destruct (decide ("ffmpeg_binary" = "ffmpeg_binary")); [eauto | contradiction].
Qed.

Lemma record_binary_fmap_twice (b : string) (jobs : gmap string Job) :
  record_binary b <$> (record_binary b <$> jobs) = record_binary b <$> jobs.
Proof.
  rewrite <- map_fmap_compose. apply map_fmap_ext. intros k j _.
  apply record_binary_twice.
Qed.

Lemma update_settings_recorded (payload : schemas.SettingsUpdate) (app : App) :
  bool_decide (is_Some (schemas.default_output_format payload))
  || bool_decide (is_Some (schemas.ffmpeg_binary payload))
  || bool_decide (is_Some (schemas.allow_gpu payload)) = true ->
  exists jobs,
    _jobs (queue (update_settings payload app))
    = record_binary
        (config.ffmpeg_binary (ffmpeg_queue.settings (update_settings payload app)))
      <$> jobs.
Proof.
  intros Hsome. rewrite update_settings_steps. cbv zeta.
  cbn [queue ffmpeg_queue.settings].
  assert (Hchanged : forall r : bool,
             r || bool_decide (is_Some (schemas.default_output_format payload))
             || bool_decide (is_Some (schemas.ffmpeg_binary payload))
             || bool_decide (is_Some (schemas.allow_gpu payload)) = true).
  { intros r. destruct r; [| exact Hsome].
    now destruct (bool_decide _), (bool_decide _), (bool_decide _). }
  rewrite Hchanged. cbn [set_jobs _jobs].
  eexists. reflexivity.
Qed.

Lemma set_default_output_format_same (s : config.Settings) (v : string) :
  config.default_output_format s = v -> config.set_default_output_format v s = s.
Proof. intros <-. now destruct s. Qed.

Lemma set_ffmpeg_binary_same (s : config.Settings) (v : string) :
  config.ffmpeg_binary s = v -> config.set_ffmpeg_binary v s = s.
Proof. intros <-. now destruct s. Qed.

Lemma set_allow_gpu_same (s : config.Settings) (v : bool) :
  config.allow_gpu s = v -> config.set_allow_gpu v s = s.
Proof. intros <-. now destruct s. Qed.

(** X18: [update_settings] with the same payload a second time changes
    nothing more: no worker is added and no retire token queued again, the
    settings and the jobs stay as the first call left them.  A request that
    is sent twice resizes the pool once. *)
Theorem update_settings_twice (payload : schemas.SettingsUpdate) (app : App) :
  update_settings payload (update_settings payload app) = update_settings payload app.
Proof.
  destruct (update_settings_fields payload app)
    as (Hfmt & Hbin & Hgpu & Hmax & _).
  destruct (bool_decide (is_Some (schemas.default_output_format payload))
            || bool_decide (is_Some (schemas.ffmpeg_binary payload))
            || bool_decide (is_Some (schemas.allow_gpu payload))) eqn:Hsome.
  - destruct (update_settings_recorded payload app Hsome) as (jobs & Hjobs).
    rewrite (update_settings_steps payload (update_settings payload app)). cbv zeta.
    set (app1 := update_settings payload app) in *.
    assert (Hst : match schemas.allow_gpu payload with
                  | Some v =>
                      config.set_allow_gpu v
                        match schemas.ffmpeg_binary payload with
                        | Some v0 =>
                            config.set_ffmpeg_binary v0
                              match schemas.default_output_format payload with
                              | Some v1 =>
                                  config.set_default_output_format v1
                                    (ffmpeg_queue.settings app1)
                              | None => ffmpeg_queue.settings app1
                              end
                        | None =>
                            match schemas.default_output_format payload with
                            | Some v1 =>
                                config.set_default_output_format v1
                                  (ffmpeg_queue.settings app1)
                            | None => ffmpeg_queue.settings app1
                            end
                        end
                  | None =>
                      match schemas.ffmpeg_binary payload with
                      | Some v0 =>
                          config.set_ffmpeg_binary v0
                            match schemas.default_output_format payload with
                            | Some v1 =>
                                config.set_default_output_format v1
                                  (ffmpeg_queue.settings app1)
                            | None => ffmpeg_queue.settings app1
                            end
                      | None =>
                          match schemas.default_output_format payload with
                          | Some v1 =>
                              config.set_default_output_format v1
                                (ffmpeg_queue.settings app1)
                          | None => ffmpeg_queue.settings app1
                          end
                      end
                  end = ffmpeg_queue.settings app1).
    { destruct (schemas.default_output_format payload) as [f|];
        [rewrite (set_default_output_format_same _ f Hfmt) |];
        (destruct (schemas.ffmpeg_binary payload) as [b|];
           [rewrite (set_ffmpeg_binary_same _ b Hbin) |]);
        (destruct (schemas.allow_gpu payload) as [g|];
           [rewrite (set_allow_gpu_same _ g Hgpu) |]); reflexivity. }
    destruct (schemas.max_parallel_jobs payload) as [v|].
    + cbn [default] in Hmax. rewrite Hmax, Z.eqb_refl. cbn [negb orb].
      rewrite Hst, Hsome, Hjobs, record_binary_fmap_twice, <- Hjobs.
      destruct app1 as [st [js q ws mx ev] c e]. reflexivity.
    + cbn [orb]. rewrite Hst, Hsome, Hjobs, record_binary_fmap_twice, <- Hjobs.
      destruct app1 as [st [js q ws mx ev] c e]. reflexivity.
  - apply orb_false_iff in Hsome. destruct Hsome as [Hsome Hg].
    apply orb_false_iff in Hsome. destruct Hsome as [Hf Hb].
    rewrite (update_settings_steps payload (update_settings payload app)). cbv zeta.
    set (app1 := update_settings payload app) in *.
    destruct (schemas.default_output_format payload) as [f|];
      [apply bool_decide_eq_false in Hf; exfalso; apply Hf; eauto |].
    destruct (schemas.ffmpeg_binary payload) as [b|];
      [apply bool_decide_eq_false in Hb; exfalso; apply Hb; eauto |].
    destruct (schemas.allow_gpu payload) as [g|];
      [apply bool_decide_eq_false in Hg; exfalso; apply Hg; eauto |].
    destruct (schemas.max_parallel_jobs payload) as [v|].
    + cbn [default] in Hmax. rewrite Hmax, Z.eqb_refl. cbn.
      destruct app1 as [st [js q ws mx ev] c e]. reflexivity.
    + cbn. destruct app1 as [st [js q ws mx ev] c e]. reflexivity.
Qed.

(** ** The command line of the log, read back *)

Lemma safe_is_literal (c : ascii) : shell_safe c = true -> kind c = Literal.
Proof.
  destruct c as [b0 b1 b2 b3 b4 b5 b6 b7].
  destruct b0, b1, b2, b3, b4, b5, b6, b7; vm_compute; intros H;
    try reflexivity; discriminate H.
Qed.

Lemma read_plain_safe (t : string) :
  all_chars shell_safe t = true ->
  forall acc rest,
    read Plain (Some acc) (t +:+ rest) = read Plain (Some (acc +:+ t)) rest.
Proof.
  induction t as [|c t IH]; intros Hsafe acc rest.
  - cbn. now rewrite append_nil_r.
  - cbn [all_chars] in Hsafe. apply andb_true_iff in Hsafe. destruct Hsafe as [Hc Ht].
    cbn [String.append read]. rewrite (safe_is_literal c Hc).
    unfold push. cbn [default]. rewrite (IH Ht). now rewrite append_assoc.
Qed.

Lemma read_embedded_quote (acc s : string) :
  read Single (Some acc) (("'" +:+ dquote +:+ "'" +:+ dquote +:+ "'") +:+ s)
  = read Single (Some (acc +:+ "'")) s.
Proof. reflexivity. Qed.

Lemma read_single_quoted (u : string) :
  forall acc rest,
    read Single (Some acc)
      (replace "'" ("'" +:+ dquote +:+ "'" +:+ dquote +:+ "'") u +:+ String "'" rest)
    = read Plain (Some (acc +:+ u)) rest.
Proof.
  induction u as [|c u IH]; intros acc rest.
  - cbn. now rewrite append_nil_r.
  - cbn [replace]. rewrite append_assoc.
    destruct (Ascii.eqb_spec c "'") as [->|Hc].
    + rewrite read_embedded_quote, IH, append_assoc. reflexivity.
    + cbn [String.append read].
      apply Ascii.eqb_neq in Hc. rewrite Hc. unfold push. cbn [default].
      rewrite IH. now rewrite append_assoc.
Qed.

Lemma read_quote (t rest : string) :
  read Plain None (shlex_quote t +:+ rest) = read Plain (Some t) rest.
Proof.
  unfold shlex_quote. destruct t as [|c t]; [reflexivity |].
  cbn [truthy negb].
  destruct (all_chars shell_safe (String c t)) eqn:Hsafe.
  - cbn [all_chars] in Hsafe. apply andb_true_iff in Hsafe. destruct Hsafe as [Hc Ht].
    cbn [String.append read]. rewrite (safe_is_literal c Hc).
    unfold push. cbn [default String.append]. now rewrite (read_plain_safe t Ht).
  - rewrite !append_assoc.
    change ("'" +:+ (replace "'" ("'" +:+ dquote +:+ "'" +:+ dquote +:+ "'") (String c t)
                       +:+ "'" +:+ rest))
      with (String "'" (replace "'" ("'" +:+ dquote +:+ "'" +:+ dquote +:+ "'") (String c t)
                          +:+ String "'" rest)).
    change (read Plain None
              (String "'" (replace "'" ("'" +:+ dquote +:+ "'" +:+ dquote +:+ "'")
                             (String c t) +:+ String "'" rest)))
      with (read Single (Some "")
              (replace "'" ("'" +:+ dquote +:+ "'" +:+ dquote +:+ "'")
                 (String c t) +:+ String "'" rest)).
    now rewrite read_single_quoted.
Qed.

Lemma words_of_quoted (cmd : list string) :
  read Plain None (join " " (map shlex_quote cmd)) = Some cmd.
Proof.
  induction cmd as [|t cmd IH]; [reflexivity |].
  destruct cmd as [|t' cmd].
  - cbn [map join String.concat].
    rewrite <- (append_nil_r (shlex_quote t)), read_quote. reflexivity.
  - change (join " " (map shlex_quote (t :: t' :: cmd)))
      with (shlex_quote t +:+ String " " (join " " (map shlex_quote (t' :: cmd)))).
    rewrite read_quote.
    change (read Plain (Some t) (String " " (join " " (map shlex_quote (t' :: cmd)))))
      with (option_map (cons t)
              (read Plain None (join " " (map shlex_quote (t' :: cmd))))).
    rewrite IH. reflexivity.
Qed.

(** X19: the line [command_as_string] writes in the log reads back, as a
    shell splits a line into words, as the very tokens of the command: the
    quoting hides every blank, quote, backslash and character the shell
    would interpret, an empty token is kept, and so two different commands
    never give the same line. *)
Theorem command_as_string_reads_back (cmd : list string) :
  words (command_as_string cmd) = Some cmd
  /\ forall cmd', command_as_string cmd = command_as_string cmd' -> cmd = cmd'.
Proof.
  split; [apply words_of_quoted |].
  intros cmd' Heq.
  pose proof (words_of_quoted cmd) as H1. pose proof (words_of_quoted cmd') as H2.
  unfold command_as_string in Heq. rewrite Heq in H1. congruence.
Qed.

(** ** The escape of the text, and values outside the tables *)

Lemma escape_each_app (a b : string) :
  escape_each (a +:+ b) = escape_each a +:+ escape_each b.
Proof.
  induction a as [|c a IH]; [reflexivity |].
  cbn [String.append escape_each]. rewrite IH. now rewrite append_assoc.
Qed.

Lemma length_escape_each (t : string) :
  String.length (escape_each t) = (String.length t + count_chars needs_escape t)%nat.
Proof.
  induction t as [|c t IH]; [reflexivity |].
  cbn [escape_each count_chars String.length]. rewrite length_append, IH.
  unfold escape_char, needs_escape.
  destruct (Ascii.eqb c "\"); [cbn; lia |].
  destruct (Ascii.eqb c ":"); [cbn; lia |].
  destruct (Ascii.eqb c "'"); cbn; lia.
Qed.

Lemma count_chars_le (p : ascii -> bool) (t : string) :
  (count_chars p t <= String.length t)%nat.
Proof.
  induction t as [|c t IH]; [cbn; lia |].
  cbn [count_chars String.length]. destruct (p c); lia.
Qed.

(** X20: [escape_text] loses nothing and works piece by piece: two different
    texts never have the same escape, the escape of two texts put together
    is their escapes put together, and the escape is longer than the text by
    exactly the number of backslashes, colons and single quotes in it, so at
    most twice as long, and the text itself when it has none. *)
Theorem escape_text_injective_additive (a b : string) :
  (escape_text a = escape_text b -> a = b)
  /\ escape_text (a +:+ b) = escape_text a +:+ escape_text b
  /\ String.length (escape_text a)
     = (String.length a + count_chars needs_escape a)%nat
  /\ (String.length (escape_text a) <= 2 * String.length a)%nat
  /\ (count_chars needs_escape a = 0%nat <-> escape_text a = a).
Proof.
  split; [| split; [| split; [| split]]].
  - intros Heq. rewrite <- (unescape_escape_each a), <- (unescape_escape_each b).
    now rewrite <- !escape_text_each, Heq.
  - rewrite !escape_text_each. apply escape_each_app.
  - rewrite escape_text_each. apply length_escape_each.
  - rewrite escape_text_each, length_escape_each.
    pose proof (count_chars_le needs_escape a). lia.
  - split.
    + intros Hzero. rewrite escape_text_each.
      induction a as [|c a IH]; [reflexivity |].
      cbn [count_chars] in Hzero. cbn [escape_each].
      destruct (needs_escape c) eqn:Hc; [lia |].
      rewrite IH by lia. unfold escape_char. unfold needs_escape in Hc.
      apply orb_false_iff in Hc. destruct Hc as [Hc Hq].
      apply orb_false_iff in Hc. destruct Hc as [Hb Hc].
      now rewrite Hb, Hc, Hq.
    + intros Hsame.
      pose proof (length_escape_each a) as Hlen.
      rewrite <- escape_text_each, Hsame in Hlen. lia.
Qed.

(** X21: values outside the tables of the command builder.  A position that
    is none of the five makes every build raise the [KeyError] of that
    position, for a text and for an image watermark alike.  A target device
    that is none of the three is not an error: the command is built without
    a video codec clause, the audio clause following the filter directly. *)
Theorem build_with_unknown_position_or_device (job : Job)
    (input_file output_file : string) :
  (~ In (position (watermark job)) (map fst POSITION_MAP) ->
   build_filter_and_inputs job = Raise (KeyError (position (watermark job)))
   /\ build_ffmpeg_command job input_file output_file
      = Raise (KeyError (position (watermark job))))
  /\ (~ In (target_device job) ["cpu"; "intel"; "nvidia"] ->
      codec_clause job = []
      /\ forall inputs filter,
           build_filter_and_inputs job = Ok (inputs, [filter]) ->
           build_ffmpeg_command job input_file output_file
           = Ok ([default "ffmpeg" (metadata job !! "ffmpeg_binary"); "-y"; "-i";
                  input_file]
                 ++ inputs
                 ++ ["-filter_complex"; filter; "-c:a"; "copy"; output_file])).
Proof.
  split.
  - intros Hpos.
    assert (Hbuild : build_filter_and_inputs job
                     = Raise (KeyError (position (watermark job)))).
    { unfold build_filter_and_inputs, resolve_position, POSITION_MAP_get. cbv zeta.
      cbn [POSITION_MAP List.find fst snd]. cbn [map fst POSITION_MAP In] in Hpos.
      destruct (String.eqb_spec "top-left" (position (watermark job)));
        [exfalso; apply Hpos; auto |].
      destruct (String.eqb_spec "top-right" (position (watermark job)));
        [exfalso; apply Hpos; auto |].
      destruct (String.eqb_spec "bottom-left" (position (watermark job)));
        [exfalso; apply Hpos; auto |].
      destruct (String.eqb_spec "bottom-right" (position (watermark job)));
        [exfalso; apply Hpos; auto 6 |].
      destruct (String.eqb_spec "center" (position (watermark job)));
        [exfalso; apply Hpos; auto 7 |].
      reflexivity. }
    split; [exact Hbuild |].
    unfold build_ffmpeg_command. now rewrite Hbuild.
  - intros Hdev.
    assert (Hcodec : codec_clause job = []).
    { unfold codec_clause. cbn [In] in Hdev.
      destruct (String.eqb_spec (target_device job) "cpu");
        [exfalso; apply Hdev; auto |].
      destruct (String.eqb_spec (target_device job) "intel");
        [exfalso; apply Hdev; auto |].
      destruct (String.eqb_spec (target_device job) "nvidia");
        [exfalso; apply Hdev; auto |].
      reflexivity. }
    split; [exact Hcodec |].
    intros inputs filter Hbuild. unfold build_ffmpeg_command.
    rewrite Hbuild, Hcodec. cbn [join String.concat]. rewrite app_nil_r.
    simpl. now rewrite <- ?app_assoc.
Qed.

Lemma build_with_unknown_position_or_device_witness :
  build_filter_and_inputs misplaced_job = Raise (KeyError "middle")
  /\ build_ffmpeg_command amd_job "in/a.mp4" "out/a.mp4"
     = Ok ["ffmpeg"; "-y"; "-i"; "in/a.mp4"; "-filter_complex";
           "drawtext=text=Hi\: there:fontcolor=white:fontsize=36:x=(W-w)/2:y=(H-h)/2";
           "-c:a"; "copy"; "out/a.mp4"].
Proof.
  split.
  - apply (build_with_unknown_position_or_device misplaced_job "in/a.mp4" "out/a.mp4").
    cbn. intuition discriminate.
  - destruct (build_with_unknown_position_or_device amd_job "in/a.mp4" "out/a.mp4")
      as [_ Hdev].
    destruct Hdev as [_ Hcmd]; [cbn; intuition discriminate |].
    rewrite (Hcmd []
               "drawtext=text=Hi\: there:fontcolor=white:fontsize=36:x=(W-w)/2:y=(H-h)/2");
      [reflexivity | vm_compute; reflexivity].
Defined.

(** ** After the shutdown *)

Lemma worker_stopped (w : World) (turns : nat) (app : App) :
  _stop_event (queue app) = true -> _worker w turns app = app.
Proof. intros Hstop. destruct turns; cbn [_worker]; [| rewrite Hstop]; reflexivity. Qed.

(** X22: [shutdown] posts one retire token for each worker after what is
    queued and sets the stop event, and nothing in the queue ever clears
    it: a worker that looks at the event takes nothing more from the queue,
    whatever is waiting there, also after a later [update_settings], which
    may start new workers.  A job created after the shutdown is still
    registered and queued, but no worker runs it: it stays [QUEUED]. *)
Theorem no_job_runs_after_shutdown (w w' : World) (turns : nat)
    (files : list string) (wm : schemas.WatermarkSettingsIn) (fmt : option string)
    (td : string) (md : option (gmap string string))
    (payload : schemas.SettingsUpdate) (app : App) :
  let closed := shut_down app in
  let created := create_job w files wm fmt td md (update_settings payload closed) in
  _queue (queue closed)
  = _queue (queue app) ++ repeat "__stop__" (List.length (_workers (queue app)))
  /\ _jobs (queue closed) = _jobs (queue app)
  /\ _worker w' turns closed = closed
  /\ _worker w' turns (update_settings payload closed) = update_settings payload closed
  /\ _worker w' turns (snd created) = snd created
  /\ get_job (queue (snd created)) (id (fst created)) = Some (fst created)
  /\ status (fst created) = QUEUED
  /\ In (id (fst created)) (_queue (queue (snd created))).
Proof.
  intros closed created.
  assert (Hupd : _stop_event (queue (update_settings payload closed)) = true).
  { destruct (update_settings_fields payload closed)
      as (_ & _ & _ & _ & _ & _ & _ & _ & _ & Hstop & _).
    rewrite Hstop. reflexivity. }
  split; [reflexivity |]. split; [reflexivity |].
  split; [now apply worker_stopped |].
  split; [now apply worker_stopped |].
  split; [apply worker_stopped; exact Hupd |].
  split; [apply create_job_registered |].
  split; [reflexivity |].
  subst created. cbn [create_job snd queue _queue]. apply in_or_app. right. now left.
Qed.
